(** * Product catalogue utilities: filtering and sorting

    A shallow embedding of [src/utils/product-filter.ts] and
    [src/utils/product-sorter.ts], together with the parts of the
    JavaScript run-time library they call, and the proofs of their
    contracts.

    Conventions of the embedding.
    - A JavaScript [number] is an exact rational.  Every finite double is
      a rational, and the code only compares numbers, tests them against
      zero and looks at the sign of a difference, all of which agree with
      the exact operations on finite doubles.  [NaN] and the infinities
      are outside the model.
    - A JavaScript string is a sequence of code units; the model covers
      the code units U+0000 to U+00FF, one per character of [string].
    - An optional field is an [option]; [undefined] is [None].
    - The object used as a dictionary by [countProductsByCategory] is a
      finite map of its own properties; a read falls back on the
      members it inherits from [Object.prototype].
    - [String.prototype.localeCompare] depends on the host's collation
      and is a parameter of [sortProducts]. *)

From Stdlib Require Import Ascii String QArith Qround Lqa.
From Stdlib Require OrderedTypeEx.
From stdpp Require Import gmap strings list fin_maps sorting.

Local Open Scope Z_scope.

(* ================================================================== *)
(** * The JavaScript run-time library *)
(* ================================================================== *)

Module JS.

Definition number : Type := Q.

(** [a < b] on numbers. *)
Definition lt (a b : number) : bool := negb (Qle_bool b a).

(** [a !== b] on numbers. *)
Definition neq (a b : number) : bool := negb (Qeq_bool a b).

(** [x || 0] for an optional number: [undefined] and [0] are falsy. *)
Definition orZero (x : option number) : number :=
  match x with
  | Some q => if Qeq_bool q 0 then 0%Q else q
  | None => 0%Q
  end.

(** ** Strings *)

(** [String.prototype.toLowerCase] on one code unit of U+0000..U+00FF:
    the letters A-Z, and U+00C0..U+00DE except the multiplication sign
    U+00D7, move up by 32. *)
Definition lowerUnit (c : ascii) : ascii :=
  let n := N_of_ascii c in
  if ((65 <=? n) && (n <=? 90) ||
      (192 <=? n) && (n <=? 222) && negb (n =? 215))%N
  then ascii_of_N (n + 32)
  else c.

Fixpoint toLowerCase (s : string) : string :=
  match s with
  | EmptyString => EmptyString
  | String c s' => String (lowerUnit c) (toLowerCase s')
  end.

(** White space and line terminators among U+0000..U+00FF:
    TAB, LF, VT, FF, CR, SP and NBSP. *)
Definition isWhiteSpace (c : ascii) : bool :=
  let n := N_of_ascii c in
  ((9 <=? n) && (n <=? 13) || (n =? 32) || (n =? 160))%N.

Fixpoint trimStart (s : string) : string :=
  match s with
  | EmptyString => EmptyString
  | String c s' => if isWhiteSpace c then trimStart s' else s
  end.

Fixpoint trimEnd (s : string) : string :=
  match s with
  | EmptyString => EmptyString
  | String c s' =>
      match trimEnd s' with
      | EmptyString => if isWhiteSpace c then EmptyString
                       else String c EmptyString
      | r => String c r
      end
  end.

(** [String.prototype.trim]. *)
Definition trim (s : string) : string := trimEnd (trimStart s).

(** [s.includes(sub)]: [sub] occurs in [s] at some position. *)
Fixpoint includes (s sub : string) : bool :=
  String.prefix sub s ||
  match s with
  | EmptyString => false
  | String _ s' => includes s' sub
  end.

(** The default comparator of [Array.prototype.sort] on strings:
    code-unit order. *)
Definition defaultCompare (x y : string) : number :=
  match String.compare x y with
  | Lt => (-1)%Q
  | Eq => 0%Q
  | Gt => 1%Q
  end.

(** ** Arrays *)

(** [xs.includes(x)] on an array of strings. *)
Definition Array_includes (xs : list string) (x : string) : bool :=
  existsb (String.eqb x) xs.

Section Sort.
Context {A : Type}.
Variable compareFn : A -> A -> number.

(** [x] enters an ordered array in front of the first element it
    does not compare greater than. *)
Fixpoint insertBefore (x : A) (l : list A) : list A :=
  match l with
  | [] => [x]
  | y :: l' =>
      if lt 0%Q (compareFn x y) then y :: insertBefore x l' else x :: l
  end.

(** [Array.prototype.sort(compareFn)].  The language requires the
    sort to be stable, so for a consistent comparator the result is
    determined: the elements in comparator order, equal ones in
    input order.  Insertion from the right computes it, as
    [SortFacts.Array_sort_determined] shows; the comparators of
    [sortProducts] are consistent whenever the collation is. *)
Fixpoint Array_sort (l : list A) : list A :=
  match l with
  | [] => []
  | x :: l' => insertBefore x (Array_sort l')
  end.
End Sort.

(** [Array.from(new Set(xs))]: the distinct elements of [xs], each at
    the place of its first occurrence. *)
Definition Set_add (seen : list string) (x : string) : list string :=
  if Array_includes seen x then seen else seen ++ [x].

Definition Array_from_Set (xs : list string) : list string :=
  fold_left Set_add xs [].

(** [Math.min(x, ...xs)] and [Math.max(x, ...xs)] with at least one
    argument: the running extreme starts at the first argument, which
    is what the initial infinity becomes after one step. *)
Definition Math_min (x : number) (xs : list number) : number :=
  fold_left (fun lowest n => if lt n lowest then n else lowest) xs x.

Definition Math_max (x : number) (xs : list number) : number :=
  fold_left (fun highest n => if lt highest n then n else highest) xs x.

(** ** Object literals used as dictionaries *)

(** The values of a counter: a whole number, or [NaN]. *)
Inductive numeric : Type :=
| Num (n : Z)
| NaN.

(** [a + b] on such values. *)
Definition add (a b : numeric) : numeric :=
  match a, b with
  | Num x, Num y => Num (x + y)
  | _, _ => NaN
  end.

(** The names an object literal inherits from [Object.prototype]. *)
Definition ObjectPrototype : list string :=
  ["constructor"; "hasOwnProperty"; "isPrototypeOf"; "propertyIsEnumerable";
   "toLocaleString"; "toString"; "valueOf"; "__defineGetter__";
   "__defineSetter__"; "__lookupGetter__"; "__lookupSetter__"; "__proto__"].

Definition inherits (k : string) : bool := Array_includes ObjectPrototype k.

(** What [o[k]] reads from an object literal whose own properties hold
    counters: nothing, an own counter, or an inherited member, which is
    a function or, for ["__proto__"], [Object.prototype] itself. *)
Inductive property : Type :=
| Undefined
| Own (v : numeric)
| Inherited.

Definition Object_get (o : gmap string numeric) (k : string) : property :=
  match o !! k with
  | Some v => Own v
  | None => if inherits k then Inherited else Undefined
  end.

(** Objects are truthy; [undefined], [0] and [NaN] are not. *)
Definition truthy (p : property) : bool :=
  match p with
  | Own (Num n) => negb (n =? 0)
  | Own NaN => false
  | Inherited => true
  | Undefined => false
  end.

(** The number a value stands for in arithmetic: [undefined], a
    function and [Object.prototype] all give [NaN]. *)
Definition ToNumber (p : property) : numeric :=
  match p with
  | Own v => v
  | Inherited => NaN
  | Undefined => NaN
  end.

(** [o[k] = v] for a counter [v].  The inherited setter of
    ["__proto__"] ignores a value that is not an object; under any
    other name the object gets an own property. *)
Definition Object_set (o : gmap string numeric) (k : string) (v : numeric)
    : gmap string numeric :=
  if String.eqb k "__proto__" then o else <[k := v]> o.

End JS.

(* ================================================================== *)
(** * The data model: [types/product] *)
(* ================================================================== *)

Record Product : Type := mkProduct {
  id : string;
  name : string;
  price : JS.number;
  originalPrice : option JS.number;
  image : string;
  alt : option string;
  rating : JS.number;
  reviewCount : option JS.number;
  badge : option string;
  category : string
}.

(* ================================================================== *)
(** * [utils/product-filter.ts] *)
(* ================================================================== *)

Module ProductFilter.

Record PriceRange : Type := mkPriceRange {
  min : JS.number;
  max : JS.number
}.

Record FilterCriteria : Type := mkCriteria {
  categories : option (list string);
  priceRange : option PriceRange;
  minRating : option JS.number;
  searchTerm : option string
}.

(** [Omit<FilterCriteria, 'categories'>]. *)
Record AdditionalCriteria : Type := mkAdditional {
  addPriceRange : option PriceRange;
  addMinRating : option JS.number;
  addSearchTerm : option string
}.

(** The guard of each of the four [if] blocks of the callback: [true]
    when the block returns [false] for the product. *)
Definition rejectedByCategories (criteria : FilterCriteria) (product : Product) : bool :=
  match categories criteria with
  | Some cs =>
      (0 <? length cs)%nat && negb (JS.Array_includes cs (category product))
  | None => false
  end.

Definition rejectedByPriceRange (criteria : FilterCriteria) (product : Product) : bool :=
  match priceRange criteria with
  | Some r => JS.lt (price product) (min r) || JS.lt (max r) (price product)
  | None => false
  end.

Definition rejectedByMinRating (criteria : FilterCriteria) (product : Product) : bool :=
  match minRating criteria with
  | Some m => JS.lt (rating product) m
  | None => false
  end.

Definition rejectedBySearchTerm (criteria : FilterCriteria) (product : Product) : bool :=
  match searchTerm criteria with
  | Some t =>
      negb (String.eqb t "") && (0 <? String.length (JS.trim t))%nat &&
      (let searchLower := JS.toLowerCase t in
       let nameMatches :=
         JS.includes (JS.toLowerCase (name product)) searchLower in
       negb nameMatches)
  | None => false
  end.

(** The callback given to [products.filter]. *)
Definition keeps (criteria : FilterCriteria) (product : Product) : bool :=
  if rejectedByCategories criteria product then false
  else if rejectedByPriceRange criteria product then false
  else if rejectedByMinRating criteria product then false
  else if rejectedBySearchTerm criteria product then false
  else true.

Definition filterProducts (products : list Product) (criteria : FilterCriteria)
  : list Product :=
  List.filter (keeps criteria) products.

Definition getCategories (products : list Product) : list string :=
  let categories := JS.Array_from_Set (map category products) in
  JS.Array_sort JS.defaultCompare categories.

(** One turn of the [forEach] loop: when [counts[category]] is falsy
    it is set to [0], then it is incremented. *)
Definition countStep (counts : gmap string JS.numeric) (product : Product)
    : gmap string JS.numeric :=
  let k := category product in
  let counts1 :=
    if negb (JS.truthy (JS.Object_get counts k))
    then JS.Object_set counts k (JS.Num 0)
    else counts in
  JS.Object_set counts1 k
    (JS.add (JS.ToNumber (JS.Object_get counts1 k)) (JS.Num 1)).

Definition countProductsByCategory (products : list Product)
    : gmap string JS.numeric :=
  fold_left countStep products ∅.

Definition getPriceRange (products : list Product) : PriceRange :=
  match products with
  | [] => {| min := 0%Q; max := 0%Q |}
  | p :: ps =>
      {| min := JS.Math_min (price p) (map price ps);
         max := JS.Math_max (price p) (map price ps) |}
  end.

(** The object literal [{categories: ..., ...additionalCriteria}]. *)
Definition filterByCategories (products : list Product)
    (selectedCategories : list string)
    (additionalCriteria : option AdditionalCriteria) : list Product :=
  filterProducts products
    {| categories :=
         if (0 <? length selectedCategories)%nat
         then Some selectedCategories else None;
       priceRange := additionalCriteria ≫= addPriceRange;
       minRating := additionalCriteria ≫= addMinRating;
       searchTerm := additionalCriteria ≫= addSearchTerm |}.

End ProductFilter.

(* ================================================================== *)
(** * [utils/product-sorter.ts] *)
(* ================================================================== *)

Module ProductSorter.

Section WithCollation.
(** [a.localeCompare(b)] of the host. *)
Variable localeCompare : string -> string -> JS.number.

Definition byNameAsc (a b : Product) : JS.number :=
  localeCompare (name a) (name b).

Definition byNameDesc (a b : Product) : JS.number :=
  localeCompare (name b) (name a).

Definition byPriceAsc (a b : Product) : JS.number :=
  (price a - price b)%Q.

Definition byPriceDesc (a b : Product) : JS.number :=
  (price b - price a)%Q.

Definition byRating (a b : Product) : JS.number :=
  if JS.neq (rating b) (rating a) then (rating b - rating a)%Q
  else (JS.orZero (reviewCount b) - JS.orZero (reviewCount a))%Q.

Definition byReviews (a b : Product) : JS.number :=
  let aReviews := JS.orZero (reviewCount a) in
  let bReviews := JS.orZero (reviewCount b) in
  if JS.neq bReviews aReviews then (bReviews - aReviews)%Q
  else (rating b - rating a)%Q.

(** The [switch] over the sort option, which at run time is any
    string. *)
Definition sortProducts (products : list Product) (sortOption : string)
  : list Product :=
  let sorted := products in
  if String.eqb sortOption "name-asc" then JS.Array_sort byNameAsc sorted
  else if String.eqb sortOption "name-desc" then JS.Array_sort byNameDesc sorted
  else if String.eqb sortOption "price-asc" then JS.Array_sort byPriceAsc sorted
  else if String.eqb sortOption "price-desc" then JS.Array_sort byPriceDesc sorted
  else if String.eqb sortOption "rating" then JS.Array_sort byRating sorted
  else if String.eqb sortOption "reviews" then JS.Array_sort byReviews sorted
  else sorted.
End WithCollation.

(** The six tags of the [SortOption] type of
    [components/sort-dropdown.tsx]. *)
Definition SortOptions : list string :=
  ["name-asc"; "name-desc"; "price-asc"; "price-desc"; "rating"; "reviews"].

End ProductSorter.

(* ================================================================== *)
(** * Vocabulary of the contracts *)
(* ================================================================== *)

Module Contract.
Import ProductFilter ProductSorter.

(** [sub] occurs in [s] as a contiguous run of code units. *)
Definition Substring (sub s : string) : Prop :=
  ∃ pre post : string, s = pre +:+ sub +:+ post.

(** The criteria with the search term left out. *)
Definition withoutSearch (criteria : FilterCriteria) : FilterCriteria :=
  {| categories := categories criteria;
     priceRange := priceRange criteria;
     minRating := minRating criteria;
     searchTerm := None |}.

(** What each supplied criterion asks of a product. *)
Definition InCategories (criteria : FilterCriteria) (product : Product) : Prop :=
  ∀ cs, categories criteria = Some cs → cs ≠ [] → category product ∈ cs.

Definition InPriceRange (criteria : FilterCriteria) (product : Product) : Prop :=
  ∀ r, priceRange criteria = Some r →
       (min r <= price product)%Q ∧ (price product <= max r)%Q.

Definition AtLeastMinRating (criteria : FilterCriteria) (product : Product) : Prop :=
  ∀ m, minRating criteria = Some m → (m <= rating product)%Q.

Definition MatchesSearch (criteria : FilterCriteria) (product : Product) : Prop :=
  ∀ t, searchTerm criteria = Some t → JS.trim t ≠ "" →
       Substring (JS.toLowerCase t) (JS.toLowerCase (name product)).

Definition Satisfies (criteria : FilterCriteria) (product : Product) : Prop :=
  InCategories criteria product ∧ InPriceRange criteria product ∧
  AtLeastMinRating criteria product ∧ MatchesSearch criteria product.

(** A product with the fields the utilities read. *)
Definition product (n : string) (p r : JS.number) (reviews : option JS.number)
    (c : string) : Product :=
  {| id := n; name := n; price := p; originalPrice := None; image := "";
     alt := None; rating := r; reviewCount := reviews; badge := None;
     category := c |}.

Definition Zed : Product := product "Zed" 10%Q 4%Q (Some 5%Q) "X".
Definition Ann : Product := product "Ann" 20%Q 4%Q (Some 50%Q) "Y".
Definition Bob : Product := product "Bob" 10%Q 3%Q None "X".

(** Products whose category is the name of a member of
    [Object.prototype]. *)
Definition constructorProduct : Product :=
  product "Lens" 10%Q 4%Q None "constructor".

Definition protoProduct : Product :=
  product "Cable" 10%Q 4%Q None "__proto__".

(** ** Orders and positions, for the sort module *)

(** [a] may stand before [b] when sorting by rating: a higher rating,
    or the same rating and at least as many reviews. *)
Definition ratingOrder (a b : Product) : Prop :=
  (rating b < rating a)%Q ∨
  ((rating a == rating b)%Q ∧
   (JS.orZero (reviewCount b) <= JS.orZero (reviewCount a))%Q).

(** [a] may stand before [b] when sorting by reviews: more reviews, or
    as many reviews and at least as high a rating. *)
Definition reviewsOrder (a b : Product) : Prop :=
  (JS.orZero (reviewCount b) < JS.orZero (reviewCount a))%Q ∨
  ((JS.orZero (reviewCount a) == JS.orZero (reviewCount b))%Q ∧
   (rating b <= rating a)%Q).

(** The review count of a product, a missing one counting as [0]. *)
Definition reviewsOf (p : Product) : JS.number :=
  match reviewCount p with
  | Some n => n
  | None => 0%Q
  end.

(** The order of the ["rating"] row of the table: a higher rating
    first, and among equal ratings the one with at least as many
    reviews. *)
Definition ratingThenReviews (a b : Product) : Prop :=
  (rating b < rating a)%Q ∨
  ((rating a == rating b)%Q ∧ (reviewsOf b <= reviewsOf a)%Q).

(** The order of the ["reviews"] row: more reviews first, and among
    equal review counts the one with at least as high a rating. *)
Definition reviewsThenRating (a b : Product) : Prop :=
  (reviewsOf b < reviewsOf a)%Q ∨
  ((reviewsOf a == reviewsOf b)%Q ∧ (rating b <= rating a)%Q).

(** Two products compare equal under the keys of a sort option: the
    names collate equal, the prices are equal, or both the rating and
    the review count are equal.  Any two products do under a tag that
    sorts by nothing. *)
Definition sameKeys (localeCompare : string → string → JS.number)
    (sortOption : string) (a b : Product) : Prop :=
  if String.eqb sortOption "name-asc" || String.eqb sortOption "name-desc"
  then (localeCompare (name a) (name b) == 0)%Q
  else if String.eqb sortOption "price-asc" || String.eqb sortOption "price-desc"
  then (price a == price b)%Q
  else if String.eqb sortOption "rating" || String.eqb sortOption "reviews"
  then (rating a == rating b)%Q ∧
       (JS.orZero (reviewCount a) == JS.orZero (reviewCount b))%Q
  else True.

(** [a] occurs in [l] at an earlier place than [b]. *)
Definition Before {A : Type} (a b : A) (l : list A) : Prop :=
  ∃ l1 l2 l3 : list A, l = l1 ++ a :: l2 ++ b :: l3.

(** Every element together with its place in the array. *)
Definition indexed {A : Type} (l : list A) : list (nat * A) :=
  imap (λ i x, (i, x)) l.

(** [a] may stand before [b] under the comparator. *)
Definition inOrder {A : Type} (compareFn : A → A → JS.number) (a b : A) : Prop :=
  (compareFn a b <= 0)%Q.

(** A consistent comparator, as the language definition asks of the
    argument of [Array.prototype.sort]: swapping the arguments swaps the
    sign, and "may stand before" is transitive. *)
Record Consistent {A : Type} (compareFn : A → A → JS.number) : Prop := {
  consistent_antisym :
    ∀ a b, (compareFn a b < 0)%Q ↔ (0 < compareFn b a)%Q;
  consistent_trans :
    ∀ a b c, inOrder compareFn a b → inOrder compareFn b c → inOrder compareFn a c
}.

(** What the language definition asks of the result of
    [l.sort(compareFn)]: a rearrangement of [l], here with the input
    place of every element, that is in comparator order and keeps
    elements that compare equal in input order. *)
Definition StableSortOf {A : Type} (compareFn : A → A → JS.number)
    (l : list A) (arranged : list (nat * A)) : Prop :=
  arranged ≡ₚ indexed l ∧
  Sorted (λ x y, inOrder compareFn x.2 y.2) arranged ∧
  ∀ i j a b,
    (i < j)%nat → l !! i = Some a → l !! j = Some b →
    (compareFn a b == 0)%Q → Before (i, a) (j, b) arranged.

(** Comparator order on elements with their input places, and input
    order among those that compare equal. *)
Definition placedOrder {A : Type} (compareFn : A → A → JS.number)
    (x y : nat * A) : Prop :=
  (compareFn x.2 y.2 < 0)%Q ∨ ((compareFn x.2 y.2 == 0)%Q ∧ (x.1 ≤ y.1)%nat).

(** The sum of the counts held in a dictionary. *)
Definition sumValues (counts : gmap string JS.numeric) : JS.numeric :=
  map_fold (λ _ v acc, JS.add v acc) (JS.Num 0) counts.

Definition searchOnly (t : string) : FilterCriteria :=
  {| categories := None; priceRange := None; minRating := None;
     searchTerm := Some t |}.

End Contract.

(* ================================================================== *)
(** * Facts about the run-time library *)
(* ================================================================== *)

Module JSFacts.
Import JS.

Lemma lt_true (a b : number) : lt a b = true ↔ (a < b)%Q.
Proof.
  unfold lt. rewrite negb_true_iff, <- not_true_iff_false, Qle_bool_iff.
  split; [apply Qnot_le_lt | apply Qlt_not_le].
Qed.

Lemma lt_false (a b : number) : lt a b = false ↔ (b <= a)%Q.
Proof. unfold lt. rewrite negb_false_iff. apply Qle_bool_iff. Qed.

Lemma neq_false (a b : number) : neq a b = false ↔ (a == b)%Q.
Proof. unfold neq. rewrite negb_false_iff. apply Qeq_bool_iff. Qed.

Lemma neq_true (a b : number) : neq a b = true ↔ ¬ (a == b)%Q.
Proof.
  unfold neq. rewrite negb_true_iff, <- not_true_iff_false, Qeq_bool_iff.
  done.
Qed.

Lemma orZero_Some (q : number) : (orZero (Some q) == q)%Q.
Proof.
  simpl. destruct (Qeq_bool q 0) eqn:E; [|reflexivity].
  apply Qeq_bool_iff in E. by rewrite E.
Qed.

(** ** Strings *)

Lemma append_String (c : ascii) (s t : string) :
  String c s +:+ t = String c (s +:+ t).
Proof. reflexivity. Qed.

Lemma prefix_append (s1 s2 : string) :
  String.prefix s1 s2 = true ↔ ∃ post, s2 = s1 +:+ post.
Proof.
  revert s2. induction s1 as [|a s1 IH]; intros [|b s2]; simpl.
  - split; [intros _; by exists "" | done].
  - split; [intros _; by exists (String b s2) | done].
  - split; [done | intros [post H]; discriminate].
  - setoid_rewrite append_String.
    destruct (ascii_dec a b) as [->|Hne].
    + rewrite IH. split; intros [post H]; exists post; congruence.
    + split; [done | intros [post H]; congruence].
Qed.

Lemma includes_unfold (s sub : string) :
  includes s sub =
  String.prefix sub s ||
  match s with
  | EmptyString => false
  | String _ s' => includes s' sub
  end.
Proof. by destruct s. Qed.

Lemma includes_Substring (s sub : string) :
  includes s sub = true ↔ Contract.Substring sub s.
Proof.
  unfold Contract.Substring. split.
  - induction s as [|c s IH]; rewrite includes_unfold, orb_true_iff.
    + intros [H|H]; [|done]. apply prefix_append in H as [post ->].
      by exists "", post.
    + intros [H|H].
      * apply prefix_append in H as [post ->]. by exists "", post.
      * destruct (IH H) as (pre & post & ->). by exists (String c pre), post.
  - intros (pre & post & ->). induction pre as [|c pre IH].
    + rewrite includes_unfold, orb_true_iff. left.
      apply prefix_append. by exists post.
    + rewrite append_String, includes_unfold, orb_true_iff. right. exact IH.
Qed.

Lemma trim_empty : trim "" = "".
Proof. reflexivity. Qed.

Lemma Array_includes_elem_of (xs : list string) (x : string) :
  Array_includes xs x = true ↔ x ∈ xs.
Proof.
  unfold Array_includes. rewrite existsb_exists. split.
  - intros (y & Hy & E). apply String.eqb_eq in E as ->.
    by apply list_elem_of_In.
  - intros H. exists x. split; [by apply list_elem_of_In | apply String.eqb_refl].
Qed.

End JSFacts.

(* ================================================================== *)
(** * The filter module *)
(* ================================================================== *)

Module FilterFacts.
Import JS JSFacts ProductFilter Contract.

(** ** The four guards, read as propositions *)

Lemma rejectedByCategories_false criteria product :
  rejectedByCategories criteria product = false ↔ InCategories criteria product.
Proof.
  unfold rejectedByCategories, InCategories.
  destruct (categories criteria) as [cs|]; [|split; [intros _ ? ?|]; done].
  rewrite andb_false_iff, negb_false_iff, Array_includes_elem_of. split.
  - intros [H|H] ? [= <-] Hne; [|done].
    destruct cs; [done | discriminate].
  - intros H. destruct cs as [|c cs]; [by left | right].
    by apply H.
Qed.

Lemma rejectedByPriceRange_false criteria product :
  rejectedByPriceRange criteria product = false ↔ InPriceRange criteria product.
Proof.
  unfold rejectedByPriceRange, InPriceRange.
  destruct (priceRange criteria) as [r|]; [|split; [intros _ ? ?|]; done].
  rewrite orb_false_iff, !lt_false. split.
  - by intros H ? [= <-].
  - intros H. by apply H.
Qed.

Lemma rejectedByMinRating_false criteria product :
  rejectedByMinRating criteria product = false ↔ AtLeastMinRating criteria product.
Proof.
  unfold rejectedByMinRating, AtLeastMinRating.
  destruct (minRating criteria) as [m|]; [|split; [intros _ ? ?|]; done].
  rewrite lt_false. split.
  - by intros H ? [= <-].
  - intros H. by apply H.
Qed.

Lemma nonblank_guard (t : string) :
  negb (String.eqb t "") && (0 <? String.length (trim t))%nat = true ↔
  trim t ≠ "".
Proof.
  destruct (trim t) as [|c r] eqn:E; simpl.
  - rewrite andb_false_r. split; done.
  - rewrite andb_true_r, negb_true_iff. split; [done | intros _].
    apply String.eqb_neq. intros ->. by rewrite trim_empty in E.
Qed.

Lemma rejectedBySearchTerm_false criteria product :
  rejectedBySearchTerm criteria product = false ↔ MatchesSearch criteria product.
Proof.
  unfold rejectedBySearchTerm, MatchesSearch.
  destruct (searchTerm criteria) as [t|]; [|split; [intros _ ? ?|]; done].
  cbv zeta. rewrite andb_false_iff, negb_false_iff, includes_Substring.
  rewrite <- not_true_iff_false, nonblank_guard. split.
  - intros [H|H] ? [= <-] Hne; [by destruct H | done].
  - intros H. destruct (decide (trim t = "")) as [E|E]; [left | right].
    + by intros ?.
    + by apply H.
Qed.

Lemma keeps_Satisfies criteria product :
  keeps criteria product = true ↔ Satisfies criteria product.
Proof.
  unfold keeps, Satisfies.
  rewrite <- rejectedByCategories_false, <- rejectedByPriceRange_false,
    <- rejectedByMinRating_false, <- rejectedBySearchTerm_false.
  destruct (rejectedByCategories _ _), (rejectedByPriceRange _ _),
    (rejectedByMinRating _ _), (rejectedBySearchTerm _ _);
    intuition congruence.
Qed.

Lemma keeps_withoutSearch criteria product :
  keeps criteria product =
  keeps (withoutSearch criteria) product &&
  negb (rejectedBySearchTerm criteria product).
Proof.
  unfold keeps.
  change (rejectedByCategories (withoutSearch criteria) product)
    with (rejectedByCategories criteria product).
  change (rejectedByPriceRange (withoutSearch criteria) product)
    with (rejectedByPriceRange criteria product).
  change (rejectedByMinRating (withoutSearch criteria) product)
    with (rejectedByMinRating criteria product).
  change (rejectedBySearchTerm (withoutSearch criteria) product) with false.
  by destruct (rejectedByCategories criteria product),
    (rejectedByPriceRange criteria product),
    (rejectedByMinRating criteria product),
    (rejectedBySearchTerm criteria product).
Qed.

(** ** [Array.prototype.filter] *)

Lemma elem_of_filterProducts products criteria product :
  product ∈ filterProducts products criteria ↔
  product ∈ products ∧ keeps criteria product = true.
Proof.
  unfold filterProducts. by rewrite !list_elem_of_In, filter_In.
Qed.

Lemma filterProducts_sublist products criteria :
  sublist (filterProducts products criteria) products.
Proof.
  unfold filterProducts. induction products as [|p ps IH]; simpl.
  - constructor.
  - destruct (keeps criteria p); by constructor.
Qed.

Lemma filter_all_kept {A} (f : A → bool) (l : list A) :
  (∀ x, x ∈ l → f x = true) → List.filter f l = l.
Proof.
  induction l as [|x l IH]; intros H; simpl; [done|].
  rewrite (H x) by left. f_equal. apply IH. intros y Hy. apply H. by right.
Qed.

(** ** [Math.min] and [Math.max] *)

Lemma Math_min_least (x : number) (xs : list number) :
  Math_min x xs ∈ x :: xs ∧ ∀ y, y ∈ x :: xs → (Math_min x xs <= y)%Q.
Proof.
  unfold Math_min. revert x. induction xs as [|n xs IH]; intros x; simpl.
  - split; [left|]. intros y ->%list_elem_of_singleton. apply Qle_refl.
  - destruct (lt n x) eqn:E.
    + apply lt_true in E. destruct (IH n) as [Hin Hle]. split.
      * by right.
      * intros y [->|Hy]%elem_of_cons; [|by apply Hle].
        apply Qle_trans with n; [apply Hle; left | by apply Qlt_le_weak].
    + apply lt_false in E. destruct (IH x) as [Hin Hle]. split.
      * apply elem_of_cons in Hin as [->|Hin]; [left | right; by right].
      * intros y [->|[->|Hy]%elem_of_cons]%elem_of_cons.
        -- apply Hle. left.
        -- apply Qle_trans with x; [apply Hle; left | done].
        -- apply Hle. by right.
Qed.

Lemma Math_max_greatest (x : number) (xs : list number) :
  Math_max x xs ∈ x :: xs ∧ ∀ y, y ∈ x :: xs → (y <= Math_max x xs)%Q.
Proof.
  unfold Math_max. revert x. induction xs as [|n xs IH]; intros x; simpl.
  - split; [left|]. intros y ->%list_elem_of_singleton. apply Qle_refl.
  - destruct (lt x n) eqn:E.
    + apply lt_true in E. destruct (IH n) as [Hin Hle]. split.
      * by right.
      * intros y [->|Hy]%elem_of_cons; [|by apply Hle].
        apply Qle_trans with n; [by apply Qlt_le_weak | apply Hle; left].
    + apply lt_false in E. destruct (IH x) as [Hin Hle]. split.
      * apply elem_of_cons in Hin as [->|Hin]; [left | right; by right].
      * intros y [->|[->|Hy]%elem_of_cons]%elem_of_cons.
        -- apply Hle. left.
        -- apply Qle_trans with x; [done | apply Hle; left].
        -- apply Hle. by right.
Qed.

End FilterFacts.

Module FilterContract.
Import JS JSFacts ProductFilter Contract FilterFacts.

(** C1, as amended.  With a search term supplied in the criteria: when
    the term is not blank, a product is in the result of
    [filterProducts] exactly when it passes the remaining criteria and
    its lower-cased name contains the lower-cased term, the term being
    taken as typed, surrounding white space included; when the term is
    blank or white space only, it filters nothing. *)
Theorem filterProducts_searchTerm
    (products : list Product) (criteria : FilterCriteria) (t : string)
    (product : Product) :
  searchTerm criteria = Some t →
  (trim t ≠ "" →
     (product ∈ filterProducts products criteria ↔
      product ∈ filterProducts products (withoutSearch criteria) ∧
      Substring (toLowerCase t) (toLowerCase (name product)))) ∧
  (trim t = "" →
     filterProducts products criteria =
     filterProducts products (withoutSearch criteria)).
Proof.
  intros Ht. split; intros Hblank.
  - rewrite !elem_of_filterProducts, keeps_withoutSearch, andb_true_iff.
    rewrite negb_true_iff, rejectedBySearchTerm_false.
    unfold MatchesSearch. rewrite Ht. split.
    + intros (Hin & Hk & Hs). repeat split; [done..|]. by apply Hs.
    + intros ((Hin & Hk) & Hs). repeat split; [done..|].
      by intros ? [= <-] _.
  - unfold filterProducts. apply filter_ext. intros p.
    rewrite keeps_withoutSearch.
    assert (rejectedBySearchTerm criteria p = false) as ->.
    { apply rejectedBySearchTerm_false. unfold MatchesSearch.
      rewrite Ht. by intros ? [= <-] ?. }
    apply andb_true_r.
Qed.

Lemma filterProducts_searchTerm_witness :
  searchTerm (searchOnly "an") = Some "an" ∧
  Ann ∈ filterProducts [Zed; Ann] (searchOnly "an").
Proof.
  split; [reflexivity|].
  destruct (filterProducts_searchTerm [Zed; Ann] (searchOnly "an") "an" Ann
              eq_refl) as [H _].
  apply H.
  - vm_compute. discriminate.
  - split.
    + vm_compute. right. left.
    + exists "", "n". reflexivity.
Defined.

(** C1, as the specification words it, fails: there the term is
    trimmed before the match.  The term [" an "] is not blank and its
    trimmed, lower-cased form occurs in ["ann"], yet [filterProducts]
    drops the product named ["Ann"]. *)
Lemma filterProducts_searchTerm_trimmed_counterexample :
  searchTerm (searchOnly " an ") = Some " an " ∧
  trim " an " ≠ "" ∧
  ¬ (Ann ∈ filterProducts [Zed; Ann] (searchOnly " an ") ↔
     Ann ∈ filterProducts [Zed; Ann] (withoutSearch (searchOnly " an ")) ∧
     Substring (toLowerCase (trim " an ")) (toLowerCase (name Ann))).
Proof.
  split; [reflexivity|]. split; [vm_compute; discriminate|].
  intros [_ H].
  assert (Ann ∈ filterProducts [Zed; Ann] (searchOnly " an ")) as Hin.
  { apply H. split.
    - vm_compute. right. left.
    - exists "", "n". reflexivity. }
  vm_compute in Hin. inversion Hin.
Qed.

(** C2.  The result of [filterProducts] is a subsequence of its input,
    and a product of the input is in the result exactly when it
    satisfies every supplied criterion. *)
Theorem filterProducts_subsequence_of_satisfying
    (products : list Product) (criteria : FilterCriteria) :
  sublist (filterProducts products criteria) products ∧
  ∀ product,
    product ∈ filterProducts products criteria ↔
    product ∈ products ∧ Satisfies criteria product.
Proof.
  split; [apply filterProducts_sublist|].
  intros product. by rewrite elem_of_filterProducts, keeps_Satisfies.
Qed.

(** C6.  [getPriceRange] of no products is [{min: 0, max: 0}]; of a
    non-empty list, [min] is the price of one of the products and is
    below every price, [max] is the price of one of the products and
    is above every price. *)
Theorem getPriceRange_extremes (products : list Product) :
  getPriceRange [] = {| min := 0%Q; max := 0%Q |} ∧
  (products ≠ [] →
     (min (getPriceRange products) ∈ map price products ∧
      ∀ p, p ∈ products → (min (getPriceRange products) <= price p)%Q) ∧
     (max (getPriceRange products) ∈ map price products ∧
      ∀ p, p ∈ products → (price p <= max (getPriceRange products))%Q)).
Proof.
  split; [reflexivity|]. intros Hne.
  destruct products as [|p ps]; [done|]. simpl.
  destruct (Math_min_least (price p) (map price ps)) as [Hmin Hle].
  destruct (Math_max_greatest (price p) (map price ps)) as [Hmax Hge].
  repeat split; [done | | done |].
  - intros q Hq. apply Hle. change (price q ∈ map price (p :: ps)).
    by apply list_elem_of_fmap_2.
  - intros q Hq. apply Hge. change (price q ∈ map price (p :: ps)).
    by apply list_elem_of_fmap_2.
Qed.

Lemma getPriceRange_extremes_witness :
  [Zed; Ann] ≠ [] ∧
  (min (getPriceRange [Zed; Ann]) ∈ map price [Zed; Ann] ∧
   ∀ p, p ∈ [Zed; Ann] → (min (getPriceRange [Zed; Ann]) <= price p)%Q) ∧
  (max (getPriceRange [Zed; Ann]) ∈ map price [Zed; Ann] ∧
   ∀ p, p ∈ [Zed; Ann] → (price p <= max (getPriceRange [Zed; Ann]))%Q).
Proof.
  split; [discriminate|].
  apply (getPriceRange_extremes [Zed; Ann]). discriminate.
Defined.

(** C7.  [filterByCategories] with an empty selection and no
    additional criteria returns its input. *)
Theorem filterByCategories_nil (products : list Product) :
  filterByCategories products [] None = products.
Proof.
  unfold filterByCategories, filterProducts. by apply filter_all_kept.
Qed.

End FilterContract.

(* ================================================================== *)
(** * [Array.prototype.sort] *)
(* ================================================================== *)

Module SortFacts.
Import JS JSFacts.

Section Rearrangement.
Context {A : Type}.
Variable compareFn : A → A → number.

Lemma insertBefore_Permutation (x : A) (l : list A) :
  insertBefore compareFn x l ≡ₚ x :: l.
Proof.
  induction l as [|y l IH]; simpl; [done|].
  destruct (lt 0%Q (compareFn x y)); [|done].
  rewrite IH. apply Permutation_swap.
Qed.

Lemma Array_sort_Permutation (l : list A) : Array_sort compareFn l ≡ₚ l.
Proof.
  induction l as [|x l IH]; simpl; [done|].
  by rewrite insertBefore_Permutation, IH.
Qed.
End Rearrangement.

(** ** Ordered output and idempotence *)

Section Ordered.
Context {A : Type}.
Variable compareFn : A → A → number.

(** The comparator never puts two elements each after the other. *)
Hypothesis compareFn_asym :
  ∀ a b, (0 < compareFn a b)%Q → (compareFn b a <= 0)%Q.

Local Abbreviation inOrder := (Contract.inOrder compareFn).

Lemma insertBefore_head (x : A) (l : list A) (y : A) :
  inOrder y x → HdRel inOrder y l → HdRel inOrder y (insertBefore compareFn x l).
Proof.
  intros Hyx Hl. destruct l as [|z l]; simpl; [by constructor|].
  destruct (lt 0%Q (compareFn x z)); constructor; [|done].
  by inversion Hl.
Qed.

Lemma insertBefore_Sorted (x : A) (l : list A) :
  Sorted inOrder l → Sorted inOrder (insertBefore compareFn x l).
Proof.
  induction 1 as [|y l Hl IH Hhd]; simpl; [by repeat constructor|].
  destruct (lt 0%Q (compareFn x y)) eqn:E.
  - apply lt_true in E. constructor; [done|].
    apply insertBefore_head; [|done]. by apply compareFn_asym.
  - apply lt_false in E. repeat constructor; done.
Qed.

Lemma Array_sort_Sorted (l : list A) : Sorted inOrder (Array_sort compareFn l).
Proof.
  induction l as [|x l IH]; simpl; [constructor|].
  by apply insertBefore_Sorted.
Qed.
End Ordered.

Section FixedPoint.
Context {A : Type}.
Variable compareFn : A → A → number.

Lemma Array_sort_of_Sorted (l : list A) :
  Sorted (Contract.inOrder compareFn) l → Array_sort compareFn l = l.
Proof.
  induction 1 as [|x l Hl IH Hhd]; simpl; [done|].
  rewrite IH. destruct Hhd as [|y l Hxy]; simpl; [done|].
  by apply lt_false in Hxy as ->.
Qed.

Lemma Array_sort_idempotent (l : list A) :
  (∀ a b, (0 < compareFn a b)%Q → (compareFn b a <= 0)%Q) →
  Array_sort compareFn (Array_sort compareFn l) = Array_sort compareFn l.
Proof.
  intros Hasym. apply Array_sort_of_Sorted. by apply Array_sort_Sorted.
Qed.
End FixedPoint.

(** ** Stability *)

Section Stable.
Context {A : Type}.
Variable compareFn : A → A → number.
Import Contract.

Lemma Before_cons (a b x : A) (l : list A) :
  Before a b (x :: l) ↔ (x = a ∧ b ∈ l) ∨ Before a b l.
Proof.
  unfold Before. split.
  - intros (l1 & l2 & l3 & E). destruct l1 as [|z l1]; simplify_eq/=.
    + left. split; [done|]. apply elem_of_app. right. left.
    + right. by exists l1, l2, l3.
  - intros [[-> Hb] | (l1 & l2 & l3 & ->)].
    + apply list_elem_of_split in Hb as (l2 & l3 & ->). by exists [], l2, l3.
    + by exists (x :: l1), l2, l3.
Qed.

Lemma insertBefore_keeps (a b x : A) (l : list A) :
  Before a b l → Before a b (insertBefore compareFn x l).
Proof.
  induction l as [|y l IH]; simpl.
  - intros (l1 & l2 & l3 & E). by destruct l1.
  - destruct (lt 0%Q (compareFn x y)); rewrite !Before_cons; [|by right].
    intros [[-> Hb] | H]; [left | right; by apply IH].
    split; [done|]. rewrite insertBefore_Permutation. by right.
Qed.

Lemma insertBefore_front (a b : A) (l : list A) :
  (compareFn a b <= 0)%Q → b ∈ l → Before a b (insertBefore compareFn a l).
Proof.
  intros Hab. induction l as [|y l IH]; simpl; [by intros ?%elem_of_nil|].
  intros Hb. destruct (lt 0%Q (compareFn a y)) eqn:E; rewrite Before_cons.
  - apply lt_true in E. right. apply IH.
    apply elem_of_cons in Hb as [-> | Hb]; [|done].
    exfalso. by apply (Qlt_not_le _ _ E).
  - by left.
Qed.

Lemma Array_sort_stable (a b : A) (l : list A) :
  (compareFn a b <= 0)%Q → Before a b l → Before a b (Array_sort compareFn l).
Proof.
  intros Hab. induction l as [|x l IH]; simpl.
  - intros (l1 & l2 & l3 & E). by destruct l1.
  - rewrite Before_cons. intros [[-> Hb] | H].
    + apply insertBefore_front; [done|]. by rewrite Array_sort_Permutation.
    + by apply insertBefore_keeps, IH.
Qed.

Lemma Before_lookup (i j : nat) (a b : A) (l : list A) :
  (i < j)%nat → l !! i = Some a → l !! j = Some b → Before a b l.
Proof.
  revert i j. induction l as [|x l IH]; intros i j Hij Hi Hj; [done|].
  apply Before_cons. destruct i as [|i]; simpl in Hi.
  - left. split; [congruence|]. destruct j as [|j]; [lia|].
    by eapply list_elem_of_lookup_2.
  - right. destruct j as [|j]; [lia|]. apply (IH i j); [lia|done..].
Qed.
End Stable.

(** Sorting a view of the elements sorts the elements. *)
Lemma insertBefore_fmap {A B : Type} (f : A → B) (compareFn : B → B → number)
    (x : A) (l : list A) :
  f <$> insertBefore (λ x y, compareFn (f x) (f y)) x l =
  insertBefore compareFn (f x) (f <$> l).
Proof.
  induction l as [|y l IH]; csimpl; [done|].
  destruct (lt 0%Q (compareFn (f x) (f y))); csimpl; [by rewrite IH | done].
Qed.

Lemma Array_sort_fmap {A B : Type} (f : A → B) (compareFn : B → B → number)
    (l : list A) :
  f <$> Array_sort (λ x y, compareFn (f x) (f y)) l = Array_sort compareFn (f <$> l).
Proof.
  induction l as [|x l IH]; csimpl; [done|].
  by rewrite insertBefore_fmap, IH.
Qed.

(** ** The result is determined *)

Section Determined.
Context {A : Type}.
Variable compareFn : A → A → number.
Import Contract.

(** The comparator on elements that carry their input place. *)
Local Abbreviation onPlaced := (λ x y : nat * A, compareFn x.2 y.2).

Lemma Before_elem_of {B : Type} (x y : B) (l : list B) :
  Before x y l → x ∈ l ∧ y ∈ l.
Proof.
  intros (l1 & l2 & l3 & ->). rewrite !elem_of_app, !elem_of_cons, !elem_of_app.
  rewrite !elem_of_cons. tauto.
Qed.

Lemma Before_NoDup_asym {B : Type} (x y : B) (l : list B) :
  NoDup l → Before x y l → Before y x l → False.
Proof.
  induction 1 as [|z l Hz Hl IH].
  - intros (l1 & l2 & l3 & E). by destruct l1.
  - rewrite !Before_cons.
    intros [[-> Hy] | Hxy] [[-> Hx] | Hyx]; [done | | | by apply IH].
    + by apply Before_elem_of in Hyx as [_ ?].
    + by apply Before_elem_of in Hxy as [_ ?].
Qed.

Lemma StronglySorted_Before {B : Type} (R1 R2 : relation B) (l : list B) :
  (∀ x y, Before x y l → R1 x y → R2 x y) →
  StronglySorted R1 l → StronglySorted R2 l.
Proof.
  intros HR Hl. induction Hl as [|x l Hl IH Hx]; constructor.
  - apply IH. intros y z Hyz. apply HR, Before_cons. by right.
  - rewrite Forall_forall in Hx |- *. intros y Hy.
    apply HR; [|by apply Hx]. apply Before_cons. left.
    by split.
Qed.

Lemma indexed_lookup (l : list A) (i : nat) (a : A) :
  (i, a) ∈ indexed l ↔ l !! i = Some a.
Proof.
  unfold indexed. rewrite elem_of_lookup_imap. split.
  - by intros (j & y & [= -> ->] & H).
  - intros H. by exists i, a.
Qed.

Lemma indexed_NoDup (l : list A) : NoDup (indexed l).
Proof.
  apply (NoDup_fmap_1 fst). unfold indexed. rewrite fmap_imap.
  change (NoDup (imap (λ i _, (λ n : nat, n) i) l)).
  rewrite imap_seq_0, list_fmap_id. apply NoDup_seq.
Qed.

Lemma indexed_values (l : list A) : (indexed l).*2 = l.
Proof.
  unfold indexed. rewrite fmap_imap. change (imap (const (λ x : A, x)) l = l).
  rewrite imap_const. apply list_fmap_id.
Qed.

(** The sort of the placed elements is a rearrangement that keeps the
    input order wherever the comparator allows it. *)
Lemma Array_sort_placed (l : list A) :
  Array_sort onPlaced (indexed l) ≡ₚ indexed l ∧
  (Array_sort onPlaced (indexed l)).*2 = Array_sort compareFn l ∧
  ∀ i j a b,
    (i < j)%nat → l !! i = Some a → l !! j = Some b →
    (compareFn a b <= 0)%Q →
    Before (i, a) (j, b) (Array_sort onPlaced (indexed l)).
Proof.
  split; [apply Array_sort_Permutation|]. split.
  - by rewrite (Array_sort_fmap snd compareFn), indexed_values.
  - intros i j a b Hij Hi Hj Hab. apply (Array_sort_stable onPlaced); [done|].
    apply (Before_lookup i j); [done|..]; unfold indexed;
      rewrite list_lookup_imap; by simplify_option_eq.
Qed.

Lemma Array_sort_keeps_places (l : list A) :
  ∃ arranged : list (nat * A),
    arranged ≡ₚ indexed l ∧
    arranged.*2 = Array_sort compareFn l ∧
    ∀ i j a b,
      (i < j)%nat → l !! i = Some a → l !! j = Some b →
      (compareFn a b <= 0)%Q → Before (i, a) (j, b) arranged.
Proof. exists (Array_sort onPlaced (indexed l)). apply Array_sort_placed. Qed.

Hypothesis compareFn_consistent : Consistent compareFn.

Local Abbreviation placedOrder := (Contract.placedOrder compareFn).

Lemma compareFn_zero_sym (a b : A) :
  (compareFn a b == 0)%Q → (compareFn b a == 0)%Q.
Proof.
  intros H.
  destruct (Q_dec (compareFn b a) 0) as [[Hlt|Hgt]|]; [exfalso..|done].
  - apply (consistent_antisym _ compareFn_consistent) in Hlt. lra.
  - apply (consistent_antisym _ compareFn_consistent) in Hgt. lra.
Qed.

Lemma StableSortOf_placedOrder (l : list A) (arranged : list (nat * A)) :
  StableSortOf compareFn l arranged → StronglySorted placedOrder arranged.
Proof.
  intros (Hperm & Hsorted & Hstable).
  assert (NoDup arranged) as Hnodup by (rewrite Hperm; apply indexed_NoDup).
  apply (StronglySorted_Before (λ x y, inOrder compareFn x.2 y.2)).
  - intros [i a] [j b] Hxy Hle. unfold Contract.placedOrder, inOrder in *. simpl in *.
    apply Qle_lteq in Hle as [Hlt|Heq]; [by left | right].
    split; [done|]. destruct (decide (i ≤ j)%nat) as [|Hji]; [done|].
    exfalso. apply (Before_NoDup_asym _ _ _ Hnodup Hxy).
    destruct (Before_elem_of _ _ _ Hxy) as [Hi Hj].
    rewrite Hperm in Hi, Hj. apply indexed_lookup in Hi, Hj.
    apply Hstable; [lia | done | done | by apply compareFn_zero_sym].
  - apply Sorted_StronglySorted; [|done].
    intros x y z. apply (consistent_trans _ compareFn_consistent).
Qed.

Lemma Array_sort_StableSortOf (l : list A) :
  StableSortOf compareFn l (Array_sort onPlaced (indexed l)).
Proof.
  destruct (Array_sort_placed l) as (Hperm & _ & Hkeep).
  split; [done|]. split.
  - apply (Array_sort_Sorted onPlaced). intros x y H.
    apply Qlt_le_weak. by apply (consistent_antisym _ compareFn_consistent).
  - intros i j a b Hij Hi Hj Hab. apply Hkeep; [done..|].
    rewrite Hab. apply Qle_refl.
Qed.

(** For a consistent comparator the language leaves no choice: every
    ordered, stable rearrangement of [l] is [Array_sort compareFn l]. *)
Theorem Array_sort_determined (l : list A) (arranged : list (nat * A)) :
  StableSortOf compareFn l arranged → arranged.*2 = Array_sort compareFn l.
Proof.
  intros Harr.
  destruct (Array_sort_placed l) as (Hperm & <- & _).
  f_equal. apply (StronglySorted_unique_strong placedOrder).
  - intros [i a] [j b] Hx Hy H1 H2.
    rewrite (proj1 Harr) in Hx. rewrite Hperm in Hy.
    apply indexed_lookup in Hx, Hy. unfold Contract.placedOrder in *. simpl in *.
    assert (i = j) as ->.
    { destruct H1 as [H1|[E1 H1]], H2 as [H2|[E2 H2]]; [exfalso..|lia].
      - apply (consistent_antisym _ compareFn_consistent) in H1. lra.
      - apply (consistent_antisym _ compareFn_consistent) in H1. lra.
      - apply (consistent_antisym _ compareFn_consistent) in H2. lra. }
    congruence.
  - by apply (StableSortOf_placedOrder l).
  - apply (StableSortOf_placedOrder l), Array_sort_StableSortOf.
  - by rewrite (proj1 Harr), Hperm.
Qed.

End Determined.

End SortFacts.

(* ================================================================== *)
(** * Category vocabulary and counts *)
(* ================================================================== *)

Module CategoryFacts.
Import JS JSFacts ProductFilter Contract.

Lemma elem_of_Set_add (seen : list string) (x y : string) :
  y ∈ Set_add seen x ↔ y ∈ seen ∨ y = x.
Proof.
  unfold Set_add. destruct (Array_includes seen x) eqn:E.
  - apply Array_includes_elem_of in E. split; [by left|].
    by intros [H | ->].
  - by rewrite elem_of_app, list_elem_of_singleton.
Qed.

Lemma elem_of_fold_Set_add (xs seen : list string) (y : string) :
  y ∈ fold_left Set_add xs seen ↔ y ∈ seen ∨ y ∈ xs.
Proof.
  revert seen. induction xs as [|x xs IH]; intros seen; simpl.
  - rewrite elem_of_nil. tauto.
  - rewrite IH, elem_of_Set_add, elem_of_cons. tauto.
Qed.

Lemma elem_of_getCategories (products : list Product) (c : string) :
  c ∈ getCategories products ↔ c ∈ map category products.
Proof.
  unfold getCategories, Array_from_Set.
  rewrite (SortFacts.Array_sort_Permutation defaultCompare).
  rewrite elem_of_fold_Set_add, elem_of_nil. tauto.
Qed.

(** ** The counting loop *)

(** C10, where the code departs from it.  For one product of category
    ["constructor"] the count the loop stores is [NaN], which is neither
    positive nor the length of the list; a second such product makes it
    [1].  For one product of category ["__proto__"] the result has no
    key at all, while [getCategories] lists the category. *)
Theorem countProductsByCategory_inherited_names :
  countProductsByCategory [constructorProduct] !! "constructor" = Some NaN ∧
  sumValues (countProductsByCategory [constructorProduct]) = NaN ∧
  countProductsByCategory [constructorProduct; constructorProduct]
    !! "constructor" = Some (Num 1) ∧
  getCategories [protoProduct] = ["__proto__"] ∧
  dom (countProductsByCategory [protoProduct]) = ∅.
Proof.
  assert (countProductsByCategory [constructorProduct] = {["constructor" := NaN]})
    as E1 by reflexivity.
  assert (countProductsByCategory [protoProduct] = ∅) as E2 by reflexivity.
  rewrite E1, E2. split; [|split; [|split; [|split]]].
  - apply lookup_singleton_eq.
  - unfold sumValues. by rewrite map_fold_singleton.
  - reflexivity.
  - reflexivity.
  - apply dom_empty_L.
Qed.

End CategoryFacts.

(* ================================================================== *)
(** * The sort module *)
(* ================================================================== *)

Module SorterFacts.
Import JS JSFacts ProductSorter Contract SortFacts.

(** ** The numeric comparators *)

Lemma byPriceAsc_asym (a b : Product) :
  (0 < byPriceAsc a b)%Q → (byPriceAsc b a <= 0)%Q.
Proof. unfold byPriceAsc. lra. Qed.

Lemma byPriceDesc_asym (a b : Product) :
  (0 < byPriceDesc a b)%Q → (byPriceDesc b a <= 0)%Q.
Proof. unfold byPriceDesc. lra. Qed.

Lemma byRating_inOrder (a b : Product) :
  (byRating a b <= 0)%Q ↔ ratingOrder a b.
Proof.
  unfold byRating, ratingOrder.
  destruct (neq (rating b) (rating a)) eqn:E.
  - apply neq_true in E. split.
    + intros H. left. apply Qle_lteq in H as [H|H]; [lra|].
      destruct E. lra.
    + intros [H|[H _]]; [lra|]. destruct E. lra.
  - apply neq_false in E. split.
    + intros H. right. split; lra.
    + intros [H|[_ H]]; lra.
Qed.

Lemma byReviews_inOrder (a b : Product) :
  (byReviews a b <= 0)%Q ↔ reviewsOrder a b.
Proof.
  unfold byReviews, reviewsOrder. cbv zeta.
  destruct (neq (orZero (reviewCount b)) (orZero (reviewCount a))) eqn:E.
  - apply neq_true in E. split.
    + intros H. left. apply Qle_lteq in H as [H|H]; [lra|].
      destruct E. lra.
    + intros [H|[H _]]; [lra|]. destruct E. lra.
  - apply neq_false in E. split.
    + intros H. right. split; lra.
    + intros [H|[_ H]]; lra.
Qed.

Global Instance ratingOrder_Transitive : Transitive ratingOrder.
Proof.
  intros a b c [H1|[E1 H1]] [H2|[E2 H2]]; unfold ratingOrder.
  - left. lra.
  - left. lra.
  - left. lra.
  - right. split; lra.
Qed.

Global Instance reviewsOrder_Transitive : Transitive reviewsOrder.
Proof.
  intros a b c [H1|[E1 H1]] [H2|[E2 H2]]; unfold reviewsOrder.
  - left. lra.
  - left. lra.
  - left. lra.
  - right. split; lra.
Qed.

Lemma ratingOrder_total (a b : Product) : ratingOrder a b ∨ ratingOrder b a.
Proof.
  unfold ratingOrder.
  destruct (Q_dec (rating a) (rating b)) as [[H|H]|H]; [right; by left | left; by left |].
  destruct (Qlt_le_dec (orZero (reviewCount a)) (orZero (reviewCount b))).
  - right. right. split; lra.
  - left. right. split; lra.
Qed.

Lemma byRating_asym (a b : Product) :
  (0 < byRating a b)%Q → (byRating b a <= 0)%Q.
Proof.
  intros H. apply byRating_inOrder.
  destruct (ratingOrder_total b a) as [|Hab]; [done|].
  apply byRating_inOrder in Hab. lra.
Qed.

Lemma reviewsOrder_total (a b : Product) : reviewsOrder a b ∨ reviewsOrder b a.
Proof.
  unfold reviewsOrder.
  destruct (Q_dec (orZero (reviewCount a)) (orZero (reviewCount b)))
    as [[H|H]|H]; [right; by left | left; by left |].
  destruct (Qlt_le_dec (rating a) (rating b)).
  - right. right. split; lra.
  - left. right. split; lra.
Qed.

Lemma byReviews_asym (a b : Product) :
  (0 < byReviews a b)%Q → (byReviews b a <= 0)%Q.
Proof.
  intros H. apply byReviews_inOrder.
  destruct (reviewsOrder_total b a) as [|Hab]; [done|].
  apply byReviews_inOrder in Hab. lra.
Qed.

(** ** The comparators are consistent *)

Lemma byPriceAsc_Consistent : Consistent byPriceAsc.
Proof. split; unfold inOrder, byPriceAsc; intros; lra. Qed.

Lemma byPriceDesc_Consistent : Consistent byPriceDesc.
Proof. split; unfold inOrder, byPriceDesc; intros; lra. Qed.

Lemma byRating_opp (a b : Product) : (byRating b a == - byRating a b)%Q.
Proof.
  unfold byRating.
  destruct (neq (rating a) (rating b)) eqn:E1,
    (neq (rating b) (rating a)) eqn:E2; try lra; exfalso.
  - apply neq_true in E1. apply neq_false in E2. apply E1. lra.
  - apply neq_false in E1. apply neq_true in E2. apply E2. lra.
Qed.

Lemma byReviews_opp (a b : Product) : (byReviews b a == - byReviews a b)%Q.
Proof.
  unfold byReviews. cbv zeta.
  destruct (neq (orZero (reviewCount a)) (orZero (reviewCount b))) eqn:E1,
    (neq (orZero (reviewCount b)) (orZero (reviewCount a))) eqn:E2;
    try lra; exfalso.
  - apply neq_true in E1. apply neq_false in E2. apply E1. lra.
  - apply neq_false in E1. apply neq_true in E2. apply E2. lra.
Qed.

Lemma byRating_Consistent : Consistent byRating.
Proof.
  split.
  - intros a b. rewrite (byRating_opp a b). split; lra.
  - intros a b c. unfold inOrder. rewrite !byRating_inOrder.
    apply ratingOrder_Transitive.
Qed.

Lemma byReviews_Consistent : Consistent byReviews.
Proof.
  split.
  - intros a b. rewrite (byReviews_opp a b). split; lra.
  - intros a b c. unfold inOrder. rewrite !byReviews_inOrder.
    apply reviewsOrder_Transitive.
Qed.

Lemma byNameAsc_Consistent (localeCompare : string → string → number) :
  Consistent localeCompare → Consistent (byNameAsc localeCompare).
Proof.
  intros [Hanti Htrans]. split; unfold inOrder, byNameAsc in *.
  - intros a b. apply Hanti.
  - intros a b c. apply Htrans.
Qed.

Lemma byNameDesc_Consistent (localeCompare : string → string → number) :
  Consistent localeCompare → Consistent (byNameDesc localeCompare).
Proof.
  intros [Hanti Htrans]. split; unfold inOrder, byNameDesc in *.
  - intros a b. apply Hanti.
  - intros a b c H1 H2. by apply (Htrans _ (name b)).
Qed.

End SorterFacts.

Module SorterContract.
Import JS JSFacts ProductSorter Contract SortFacts SorterFacts.

Create HintDb comparators.
#[local] Hint Resolve byPriceAsc_asym byPriceDesc_asym byRating_asym
  byReviews_asym : comparators.

(** Case analysis over the six recognised tags. *)
Ltac each_recognized H :=
  unfold SortOptions in H;
  repeat (apply elem_of_cons in H as [-> | H]);
  [.. | by apply elem_of_nil in H].

Lemma Sorted_weaken {A : Type} (R1 R2 : relation A) (l : list A) :
  (∀ x y, R1 x y → R2 x y) → Sorted R1 l → Sorted R2 l.
Proof.
  intros HR. induction 1 as [|x l Hl IH Hhd]; constructor; [done|].
  destruct Hhd; constructor. by apply HR.
Qed.

Lemma StronglySorted_relax {A : Type} (R1 R2 : relation A) (l : list A) :
  (∀ x y, R1 x y → R2 x y) → StronglySorted R1 l → StronglySorted R2 l.
Proof.
  intros HR. induction 1 as [|x l Hl IH Hx]; constructor; [done|].
  eapply Forall_impl; [exact Hx | apply HR].
Qed.

(** [x.reviewCount || 0] is the review count, a missing one being [0]. *)
Lemma orZero_reviewsOf (p : Product) :
  (orZero (reviewCount p) == reviewsOf p)%Q.
Proof.
  unfold reviewsOf. destruct (reviewCount p) as [n|]; [|reflexivity].
  apply orZero_Some.
Qed.

Lemma ratingOrder_reviewsOf (a b : Product) :
  ratingOrder a b → ratingThenReviews a b.
Proof.
  unfold ratingOrder, ratingThenReviews.
  rewrite !orZero_reviewsOf. tauto.
Qed.

Lemma reviewsOrder_reviewsOf (a b : Product) :
  reviewsOrder a b → reviewsThenRating a b.
Proof.
  unfold reviewsOrder, reviewsThenRating.
  rewrite !orZero_reviewsOf. tauto.
Qed.

Lemma defaultCompare_antisym (a b : string) :
  (0 < defaultCompare a b)%Q ↔ (defaultCompare b a < 0)%Q.
Proof.
  unfold defaultCompare. rewrite (String.compare_antisym a b).
  destruct (String.compare b a); simpl; split; intros H; try done; lra.
Qed.

Section WithCollation.
Variable localeCompare : string → string → number.

(** C3.  A sort option outside the six recognised tags leaves the
    products in their input order; [sortProducts] is a total function,
    so nothing is raised. *)
Theorem sortProducts_unrecognized (products : list Product) (sortOption : string) :
  sortOption ∉ SortOptions →
  sortProducts localeCompare products sortOption = products.
Proof.
  intros Hs. unfold sortProducts.
  repeat match goal with
  | |- context [String.eqb sortOption ?tag] =>
      destruct (String.eqb_spec sortOption tag) as [-> | _];
      [exfalso; apply Hs; unfold SortOptions; rewrite !elem_of_cons; tauto |]
  end.
  reflexivity.
Qed.

(** C9.  Whatever the sort option, the result of [sortProducts] is a
    rearrangement of the input: the same products, each as many times,
    and as many in all. *)
Theorem sortProducts_Permutation (products : list Product) (sortOption : string) :
  sortProducts localeCompare products sortOption ≡ₚ products ∧
  length (sortProducts localeCompare products sortOption) = length products.
Proof.
  assert (sortProducts localeCompare products sortOption ≡ₚ products) as H.
  { unfold sortProducts.
    repeat match goal with
    | |- context [String.eqb sortOption ?tag] =>
        destruct (String.eqb sortOption tag); [apply Array_sort_Permutation |]
    end.
    reflexivity. }
  split; [done | by rewrite H].
Qed.

(** C5.  Sorted by ["rating"], the products are rearranged so that each
    stands before those of lower rating and, among equal ratings, before
    those with fewer reviews; sorted by ["reviews"], before those with
    fewer reviews and, among equal review counts, before those of lower
    rating.  The review count of a product without one is [0]. *)
Theorem sortProducts_rating_reviews (products : list Product) :
  (sortProducts localeCompare products "rating" ≡ₚ products ∧
   StronglySorted ratingThenReviews
     (sortProducts localeCompare products "rating")) ∧
  (sortProducts localeCompare products "reviews" ≡ₚ products ∧
   StronglySorted reviewsThenRating
     (sortProducts localeCompare products "reviews")).
Proof.
  split; (split; [apply Array_sort_Permutation|]).
  - apply (StronglySorted_relax ratingOrder);
      [intros x y; apply ratingOrder_reviewsOf|].
    apply Sorted_StronglySorted; [apply _|].
    apply (Sorted_weaken (inOrder byRating : relation Product));
      [intros x y; apply byRating_inOrder|].
    apply Array_sort_Sorted, byRating_asym.
  - apply (StronglySorted_relax reviewsOrder);
      [intros x y; apply reviewsOrder_reviewsOf|].
    apply Sorted_StronglySorted; [apply _|].
    apply (Sorted_weaken (inOrder byReviews : relation Product));
      [intros x y; apply byReviews_inOrder|].
    apply Array_sort_Sorted, byReviews_asym.
Qed.

(** The host's collation is antisymmetric. *)
Hypothesis localeCompare_antisym :
  ∀ a b, (0 < localeCompare a b)%Q ↔ (localeCompare b a < 0)%Q.

Lemma byNameAsc_asym (a b : Product) :
  (0 < byNameAsc localeCompare a b)%Q → (byNameAsc localeCompare b a <= 0)%Q.
Proof.
  unfold byNameAsc. intros H%localeCompare_antisym. by apply Qlt_le_weak.
Qed.

Lemma byNameDesc_asym (a b : Product) :
  (0 < byNameDesc localeCompare a b)%Q → (byNameDesc localeCompare b a <= 0)%Q.
Proof.
  unfold byNameDesc. intros H%localeCompare_antisym. by apply Qlt_le_weak.
Qed.

Lemma localeCompare_zero_sym (a b : string) :
  (localeCompare a b == 0)%Q → (localeCompare b a <= 0)%Q.
Proof.
  intros H. destruct (Qlt_le_dec 0 (localeCompare b a)) as [Hlt|]; [|done].
  apply localeCompare_antisym in Hlt. lra.
Qed.

#[local] Hint Resolve byNameAsc_asym byNameDesc_asym : comparators.

(** C4.  Under each of the six recognised tags, sorting a sorted list
    changes nothing. *)
Theorem sortProducts_idempotent (products : list Product) (sortOption : string) :
  sortOption ∈ SortOptions →
  sortProducts localeCompare (sortProducts localeCompare products sortOption)
    sortOption =
  sortProducts localeCompare products sortOption.
Proof.
  intros Hs. each_recognized Hs; unfold sortProducts; simpl;
    apply Array_sort_idempotent; auto with comparators.
Qed.

(** C8.  Under each of the six recognised tags the sort is stable: the
    output is the input, every product keeping track of its input place,
    rearranged so that of any two products that compare equal under the
    keys of the option, the one earlier in the input is earlier in the
    output. *)
Theorem sortProducts_stable (products : list Product) (sortOption : string) :
  sortOption ∈ SortOptions →
  ∃ arranged : list (nat * Product),
    arranged ≡ₚ indexed products ∧
    arranged.*2 = sortProducts localeCompare products sortOption ∧
    ∀ i j a b,
      (i < j)%nat → products !! i = Some a → products !! j = Some b →
      sameKeys localeCompare sortOption a b →
      Before (i, a) (j, b) arranged.
Proof.
  intros Hs.
  each_recognized Hs; unfold sortProducts, sameKeys; simpl;
    match goal with
    | |- context [Array_sort ?cmp products] =>
        destruct (Array_sort_keeps_places cmp products)
          as (arranged & Hperm & Hout & Hkeep)
    end;
    exists arranged; (split; [done|]); (split; [done|]);
    intros i j a b Hij Hi Hj Hkeys; apply (Hkeep i j a b Hij Hi Hj).
  - unfold byNameAsc. lra.
  - unfold byNameDesc. by apply localeCompare_zero_sym.
  - unfold byPriceAsc. lra.
  - unfold byPriceDesc. lra.
  - apply byRating_inOrder. right. lra.
  - apply byReviews_inOrder. right. lra.
Qed.

End WithCollation.

(** ** The contracts at work, under code-unit collation *)

Lemma newest_unrecognized : "newest" ∉ SortOptions.
Proof.
  unfold SortOptions. rewrite !elem_of_cons, elem_of_nil.
  intros [H|[H|[H|[H|[H|[H|[]]]]]]]; discriminate.
Qed.

Lemma price_asc_recognized : "price-asc" ∈ SortOptions.
Proof. unfold SortOptions. rewrite !elem_of_cons. tauto. Qed.

Lemma sortProducts_unrecognized_witness :
  ("newest" ∉ SortOptions) ∧
  sortProducts defaultCompare [Zed; Ann] "newest" = [Zed; Ann].
Proof.
  split; [exact newest_unrecognized|].
  exact (sortProducts_unrecognized defaultCompare [Zed; Ann] "newest"
           newest_unrecognized).
Defined.

Lemma sortProducts_idempotent_witness :
  "price-asc" ∈ SortOptions ∧
  sortProducts defaultCompare
    (sortProducts defaultCompare [Ann; Zed; Bob] "price-asc") "price-asc" =
  sortProducts defaultCompare [Ann; Zed; Bob] "price-asc".
Proof.
  split; [exact price_asc_recognized|].
  exact (sortProducts_idempotent defaultCompare defaultCompare_antisym
           [Ann; Zed; Bob] "price-asc" price_asc_recognized).
Defined.

Lemma sortProducts_stable_witness :
  "price-asc" ∈ SortOptions ∧
  ∃ arranged : list (nat * Product),
    arranged ≡ₚ indexed [Ann; Zed; Bob] ∧
    arranged.*2 = sortProducts defaultCompare [Ann; Zed; Bob] "price-asc" ∧
    ∀ i j a b,
      (i < j)%nat → [Ann; Zed; Bob] !! i = Some a → [Ann; Zed; Bob] !! j = Some b →
      sameKeys defaultCompare "price-asc" a b →
      Before (i, a) (j, b) arranged.
Proof.
  split; [exact price_asc_recognized|].
  exact (sortProducts_stable defaultCompare defaultCompare_antisym
           [Ann; Zed; Bob] "price-asc" price_asc_recognized).
Defined.

(** The scenarios of the specification. *)

Example sort_name_asc :
  sortProducts defaultCompare [Zed; Ann] "name-asc" = [Ann; Zed].
Proof. reflexivity. Qed.

Example sort_rating_tie :
  sortProducts defaultCompare [Zed; Ann] "rating" = [Ann; Zed].
Proof. reflexivity. Qed.

Example sort_price_ties_keep_order :
  sortProducts defaultCompare [Ann; Zed; Bob] "price-asc" = [Zed; Bob; Ann].
Proof. reflexivity. Qed.

Example filter_category_X :
  ProductFilter.filterByCategories [Zed; Ann] ["X"] None = [Zed].
Proof. reflexivity. Qed.

Example filter_minRating_5 :
  ProductFilter.filterProducts [Zed; Ann]
    {| ProductFilter.categories := None; ProductFilter.priceRange := None;
       ProductFilter.minRating := Some 5%Q; ProductFilter.searchTerm := None |} = [].
Proof. reflexivity. Qed.

Example filter_search_an :
  ProductFilter.filterProducts [Zed; Ann] (searchOnly "an") = [Ann].
Proof. reflexivity. Qed.

Example filter_search_an_padded :
  ProductFilter.filterProducts [Zed; Ann] (searchOnly " an ") = [].
Proof. reflexivity. Qed.

End SorterContract.

(* ================================================================== *)
(** * The components around the utilities *)
(* ================================================================== *)

(** More of the run-time library, for the components. *)
Module JSMath.
Import JS.

(** The integer part of a number, towards zero. *)
Definition trunc (x : number) : Z :=
  if Qle_bool 0 x then Qfloor x else Qceiling x.

(** [x % y] for a divisor other than zero: what is left of [x] after
    taking out [y] a whole number of times, counted towards zero. *)
Definition remainder (x y : number) : number :=
  (x - y * inject_Z (trunc (x / y)))%Q.

(** [Math.floor]. *)
Definition Math_floor (x : number) : Z := Qfloor x.

End JSMath.

(** ** [components/product-grid-with-filters.tsx] *)

Module ProductGrid.
Import ProductFilter ProductSorter.

(** [handleCategoryChange]: the function of the previous selection it
    hands to [setSelectedCategories]. *)
Definition handleCategoryChange (category : string) (isSelected : bool)
    (prev : list string) : list string :=
  if isSelected
  then JS.Array_sort JS.defaultCompare (prev ++ [category])
  else List.filter (λ c, negb (String.eqb c category)) prev.

(** [handleClearFilters]: the selection becomes the empty array. *)
Definition handleClearFilters (prev : list string) : list string := [].

(** [filteredAndSortedProducts]: filter by the selection, then sort. *)
Definition filteredAndSortedProducts
    (localeCompare : string → string → JS.number)
    (products : list Product) (selectedCategories : list string)
    (sortOption : string) : list Product :=
  let filtered := filterByCategories products selectedCategories None in
  sortProducts localeCompare filtered sortOption.

End ProductGrid.

(** ** The category panel, [ProductFilter] *)

Module ProductFilterPanel.

Section WithCallback.
Context {State : Type}.

(** [onCategoryChange(category, isSelected)], as the change of state it
    asks of the parent component.  The parent queues each request and
    applies the queue in order. *)
Variable onCategoryChange : string → bool → State → State.

Definition handleCategoryToggle (selectedCategories : list string)
    (category : string) : State → State :=
  let isCurrentlySelected := JS.Array_includes selectedCategories category in
  onCategoryChange category (negb isCurrentlySelected).

(** [selectedCategories.forEach(c => onCategoryChange(c, false))]. *)
Definition handleClearFilters (selectedCategories : list string)
    : State → State :=
  λ state,
    fold_left (λ st category, onCategoryChange category false st)
      selectedCategories state.
End WithCallback.

(** [totalProducts].  Adding counters is commutative and associative,
    [NaN] included, so the order in which [Object.values] lists them
    does not affect the sum. *)
Definition totalProducts (productsByCategory : option (gmap string JS.numeric))
    : JS.numeric :=
  match productsByCategory with
  | None => JS.Num 0
  | Some counts => map_fold (λ _ count sum, JS.add sum count) (JS.Num 0) counts
  end.

(** [productsByCategory?.[category] || 0]. *)
Definition productCount (productsByCategory : option (gmap string JS.numeric))
    (category : string) : JS.property :=
  match productsByCategory with
  | None => JS.Own (JS.Num 0)
  | Some counts =>
      let found := JS.Object_get counts category in
      if JS.truthy found then found else JS.Own (JS.Num 0)
  end.

End ProductFilterPanel.

(** ** The star row of [components/product-card.tsx] *)

Module ProductCard.
Import JS JSMath.

Definition fullStars (rating : number) : Z := Math_floor rating.

Definition hasHalfStar (rating : number) : bool :=
  neq (remainder rating 1%Q) 0%Q.

(** One of the five places: whether the full overlay and the half
    overlay are drawn over the grey star. *)
Record Star : Type := mkStar {
  fullOverlay : bool;
  halfOverlay : bool
}.

(** [Array.from({ length: 5 }).map((_, index) => ...)]. *)
Definition StarRating (rating : number) : list Star :=
  map (λ index : Z,
         {| fullOverlay := index <? fullStars rating;
            halfOverlay := hasHalfStar rating && (index =? fullStars rating) |})
      [0; 1; 2; 3; 4].

End ProductCard.

(** ** The grid wired to the panel *)

Module Catalog.

(** The grid passes its selection and [handleCategoryChange] to the
    panel, so a click on a check box, and a click on the panel's
    "Clear", change the selection as follows.  Each click is handled
    on the selection of the latest render. *)
Definition toggle (selected : list string) (category : string) : list string :=
  ProductFilterPanel.handleCategoryToggle ProductGrid.handleCategoryChange
    selected category selected.

Definition clear (selected : list string) : list string :=
  ProductFilterPanel.handleClearFilters ProductGrid.handleCategoryChange
    selected selected.

(** What the user can do to the selection. *)
Inductive Event : Type :=
| Toggle (category : string)
| PanelClear
| GridClear.

Definition step (selected : list string) (e : Event) : list string :=
  match e with
  | Toggle category => toggle selected category
  | PanelClear => clear selected
  | GridClear => ProductGrid.handleClearFilters selected
  end.

(** The selection after a run of events, from the initial [useState([])]. *)
Definition run (events : list Event) : list string := fold_left step events [].

End Catalog.

(** ** Vocabulary for the properties below *)

Module Vocabulary.
Import ProductFilter ProductSorter.

(** Strictly ascending in code-unit order. *)
Definition Ascending (l : list string) : Prop :=
  StronglySorted (λ a b, String.compare a b = Lt) l.

(** How many products carry a category. *)
Definition countOf (c : string) (products : list Product) : nat :=
  length (List.filter (λ p, String.eqb (category p) c) products).

(** The entry the counting loop leaves under a category that [n]
    products carry: under a plain name their number; under an inherited
    name [NaN] after the first product and one less than their number
    from the second on; none under ["__proto__"]. *)
Definition entryFor (c : string) (n : nat) : option JS.numeric :=
  match n with
  | O => None
  | S m =>
      if String.eqb c "__proto__" then None
      else if JS.inherits c
      then match m with
           | O => Some JS.NaN
           | S _ => Some (JS.Num (Z.of_nat m))
           end
      else Some (JS.Num (Z.of_nat n))
  end.

(** The criteria with another search term. *)
Definition withSearch (criteria : FilterCriteria) (t : string) : FilterCriteria :=
  {| categories := categories criteria;
     priceRange := priceRange criteria;
     minRating := minRating criteria;
     searchTerm := Some t |}.

(** A price range as the only criterion. *)
Definition priceOnly (r : PriceRange) : FilterCriteria :=
  {| categories := None; priceRange := Some r; minRating := None;
     searchTerm := None |}.

(** Additional criteria as criteria of their own. *)
Definition asCriteria (extra : AdditionalCriteria) : FilterCriteria :=
  {| categories := None;
     priceRange := addPriceRange extra;
     minRating := addMinRating extra;
     searchTerm := addSearchTerm extra |}.

(** [a] may stand before [b] under a sort option: the table of the
    sort module, read off the comparators. *)
Definition mayPrecede (localeCompare : string → string → JS.number)
    (sortOption : string) (a b : Product) : Prop :=
  if String.eqb sortOption "name-asc"
  then (localeCompare (name a) (name b) <= 0)%Q
  else if String.eqb sortOption "name-desc"
  then (localeCompare (name b) (name a) <= 0)%Q
  else if String.eqb sortOption "price-asc" then (price a <= price b)%Q
  else if String.eqb sortOption "price-desc" then (price b <= price a)%Q
  else if String.eqb sortOption "rating" then Contract.ratingOrder a b
  else if String.eqb sortOption "reviews" then Contract.reviewsOrder a b
  else True.

(** What a row of stars shows: one for a full overlay, a half for a
    half overlay. *)
Definition starValue (s : ProductCard.Star) : Q :=
  if ProductCard.fullOverlay s then 1%Q
  else if ProductCard.halfOverlay s then (1 # 2)%Q else 0%Q.

Definition starsValue (row : list ProductCard.Star) : Q :=
  foldr (λ s acc, (starValue s + acc)%Q) 0%Q row.

(** The sum of [f] over a list of categories. *)
Definition sumOver (f : string → JS.numeric) (cs : list string) : JS.numeric :=
  foldr (λ c acc, JS.add (f c) acc) (JS.Num 0) cs.

(** Every product's category is a name an object literal does not
    inherit. *)
Definition PlainCategories (products : list Product) : Prop :=
  ∀ p, p ∈ products → JS.inherits (category p) = false.

Definition FullStar : ProductCard.Star :=
  {| ProductCard.fullOverlay := true; ProductCard.halfOverlay := false |}.
Definition EmptyStar : ProductCard.Star :=
  {| ProductCard.fullOverlay := false; ProductCard.halfOverlay := false |}.

End Vocabulary.

(** ** Code-unit order on strings *)

Module StringOrder.
Import JS Contract.

Lemma compare_refl (a : string) : String.compare a a = Eq.
Proof. by apply OrderedTypeEx.String_as_OT.cmp_eq. Qed.

Lemma compare_Lt_trans (a b c : string) :
  String.compare a b = Lt → String.compare b c = Lt → String.compare a c = Lt.
Proof.
  intros H1%OrderedTypeEx.String_as_OT.cmp_lt H2%OrderedTypeEx.String_as_OT.cmp_lt.
  apply OrderedTypeEx.String_as_OT.cmp_lt.
  by apply (OrderedTypeEx.String_as_OT.lt_trans a b c).
Qed.

Lemma compare_Gt_Lt (a b : string) :
  String.compare a b = Gt ↔ String.compare b a = Lt.
Proof.
  rewrite (String.compare_antisym a b).
  destruct (String.compare b a); simpl; split; congruence.
Qed.

Lemma defaultCompare_inOrder (a b : string) :
  inOrder defaultCompare a b ↔ String.compare a b ≠ Gt.
Proof.
  unfold inOrder, defaultCompare.
  destruct (String.compare a b); split; intros H; try done; try lra.
Qed.

Lemma compare_not_Gt_trans (a b c : string) :
  String.compare a b ≠ Gt → String.compare b c ≠ Gt → String.compare a c ≠ Gt.
Proof.
  intros H1 H2.
  destruct (String.compare a b) eqn:E1; [| |done].
  { apply String.compare_eq_iff in E1 as ->. done. }
  destruct (String.compare b c) eqn:E2; [| |done].
  { apply String.compare_eq_iff in E2 as ->. by rewrite E1. }
  by rewrite (compare_Lt_trans a b c).
Qed.

Lemma defaultCompare_Consistent : Consistent defaultCompare.
Proof.
  split.
  - intros a b. unfold defaultCompare. rewrite (String.compare_antisym a b).
    destruct (String.compare b a); simpl; split; intros H; try done; lra.
  - intros a b c. rewrite !defaultCompare_inOrder. apply compare_not_Gt_trans.
Qed.

Lemma defaultCompare_asym (a b : string) :
  (0 < defaultCompare a b)%Q → (defaultCompare b a <= 0)%Q.
Proof.
  intros H. apply Qlt_le_weak.
  by apply (consistent_antisym _ defaultCompare_Consistent).
Qed.

End StringOrder.

(** ** Sorting and filtering *)

Module SortLaws.
Import JS JSFacts Contract SortFacts.

Section Laws.
Context {A : Type}.
Variable compareFn : A → A → number.
Hypothesis compareFn_consistent : Consistent compareFn.

Lemma Consistent_asym (a b : A) :
  (0 < compareFn a b)%Q → (compareFn b a <= 0)%Q.
Proof.
  intros H. apply Qlt_le_weak.
  by apply (consistent_antisym _ compareFn_consistent).
Qed.

#[local] Instance inOrder_Transitive : Transitive (inOrder compareFn).
Proof. intros a b c. apply (consistent_trans _ compareFn_consistent). Qed.

Lemma Array_sort_StronglySorted (l : list A) :
  StronglySorted (inOrder compareFn) (Array_sort compareFn l).
Proof.
  apply Sorted_StronglySorted; [apply _|].
  apply Array_sort_Sorted, Consistent_asym.
Qed.

Lemma filter_insertBefore (f : A → bool) (x : A) (l : list A) :
  StronglySorted (inOrder compareFn) l →
  List.filter f (insertBefore compareFn x l) =
  if f x then insertBefore compareFn x (List.filter f l) else List.filter f l.
Proof.
  induction 1 as [|y l Hl IH Hy]; simpl; [by destruct (f x)|].
  destruct (lt 0%Q (compareFn x y)) eqn:E; simpl.
  - rewrite IH. destruct (f y), (f x); simpl; by rewrite ?E.
  - destruct (f x) eqn:Ex; [|done].
    apply lt_false in E.
    destruct (List.filter f (y :: l)) as [|z k] eqn:Ek; simpl in *; [by rewrite Ek|].
    rewrite Ek.
    assert (inOrder compareFn x z) as Hxz.
    { assert (z ∈ y :: l) as Hz.
      { apply list_elem_of_In, (proj1 (filter_In f z (y :: l))).
        simpl. rewrite Ek. by left. }
      apply elem_of_cons in Hz as [-> | Hz]; [done|].
      rewrite Forall_forall in Hy. by trans y; [|apply Hy]. }
    simpl. by apply lt_false in Hxz as ->.
Qed.

Lemma filter_Array_sort (f : A → bool) (l : list A) :
  List.filter f (Array_sort compareFn l) = Array_sort compareFn (List.filter f l).
Proof.
  induction l as [|x l IH]; simpl; [done|].
  rewrite filter_insertBefore by apply Array_sort_StronglySorted.
  destruct (f x); simpl; by rewrite IH.
Qed.

End Laws.

End SortLaws.

(** ** More about [sortProducts] *)

Module SorterLaws.
Import JS JSFacts ProductFilter ProductSorter Contract Vocabulary.
Import SortFacts SorterFacts SortLaws StringOrder.

Lemma StronglySorted_weaken {A : Type} (R1 R2 : relation A) (l : list A) :
  (∀ x y, R1 x y → R2 x y) → StronglySorted R1 l → StronglySorted R2 l.
Proof.
  intros HR. induction 1 as [|x l Hl IH Hx]; constructor; [done|].
  eapply Forall_impl; [exact Hx | apply HR].
Qed.

Lemma Sorted_inOrder {A : Type} (R : relation A) (compareFn : A → A → number)
    (l : list A) :
  (∀ x y, R x y → inOrder compareFn x y) → Sorted R l →
  Sorted (inOrder compareFn) l.
Proof.
  intros HR. induction 1 as [|x l Hl IH Hhd]; constructor; [done|].
  destruct Hhd; constructor. by apply HR.
Qed.

(** The comparator run backwards. *)
Lemma Consistent_flip {A : Type} (compareFn : A → A → number) :
  Consistent compareFn → Consistent (λ a b, compareFn b a).
Proof.
  intros [Hanti Htrans]. split.
  - intros a b. apply Hanti.
  - intros a b c H1 H2. by apply (Htrans c b a).
Qed.

(** Without ties, sorting backwards is sorting and reversing. *)
Lemma Array_sort_flip {A : Type} (compareFn : A → A → number) (l : list A) :
  Consistent compareFn →
  (∀ x y, x ∈ l → y ∈ l → (compareFn x y == 0)%Q → x = y) →
  Array_sort (λ a b, compareFn b a) l = reverse (Array_sort compareFn l).
Proof.
  intros Hc Hties.
  apply (StronglySorted_unique_strong (inOrder (λ a b, compareFn b a))).
  - intros x y Hx Hy H1 H2. unfold inOrder in *.
    rewrite Array_sort_Permutation in Hx.
    rewrite reverse_Permutation, Array_sort_Permutation in Hy.
    apply Hties; [done..|].
    destruct (Q_dec (compareFn x y) 0) as [[Hlt|Hgt]|]; [| |done].
    + apply (consistent_antisym _ Hc) in Hlt. lra.
    + lra.
  - apply Array_sort_StronglySorted, Consistent_flip, Hc.
  - apply Sorted_StronglySorted.
    + intros a b c. apply (consistent_trans _ (Consistent_flip _ Hc)).
    + apply (Sorted_reverse (inOrder compareFn)).
      apply Array_sort_Sorted. by apply Consistent_asym.
  - by rewrite reverse_Permutation, !Array_sort_Permutation.
Qed.

(** Without ties, the sorted list does not depend on the order of the
    input. *)
Lemma Array_sort_of_Permutation {A : Type} (compareFn : A → A → number)
    (l1 l2 : list A) :
  Consistent compareFn →
  (∀ x y, x ∈ l1 → y ∈ l1 → (compareFn x y == 0)%Q → x = y) →
  l1 ≡ₚ l2 → Array_sort compareFn l1 = Array_sort compareFn l2.
Proof.
  intros Hc Hties Hperm.
  apply (StronglySorted_unique_strong (inOrder compareFn)).
  - intros x y Hx Hy H1 H2. unfold inOrder in *.
    rewrite Array_sort_Permutation in Hx.
    rewrite Array_sort_Permutation, <- Hperm in Hy.
    apply Hties; [done..|].
    destruct (Q_dec (compareFn x y) 0) as [[Hlt|Hgt]|]; [| |done].
    + apply (consistent_antisym _ Hc) in Hlt. lra.
    + lra.
  - by apply Array_sort_StronglySorted.
  - by apply Array_sort_StronglySorted.
  - by rewrite !Array_sort_Permutation.
Qed.

Lemma byRating_zero (a b : Product) :
  (byRating a b == 0)%Q →
  (rating a == rating b)%Q ∧ (orZero (reviewCount a) == orZero (reviewCount b))%Q.
Proof.
  unfold byRating. destruct (neq (rating b) (rating a)) eqn:E.
  - apply neq_true in E. intros H. destruct E. lra.
  - apply neq_false in E. intros H. split; lra.
Qed.

Lemma byReviews_zero (a b : Product) :
  (byReviews a b == 0)%Q →
  (rating a == rating b)%Q ∧ (orZero (reviewCount a) == orZero (reviewCount b))%Q.
Proof.
  unfold byReviews. cbv zeta.
  destruct (neq (orZero (reviewCount b)) (orZero (reviewCount a))) eqn:E.
  - apply neq_true in E. intros H. destruct E. lra.
  - apply neq_false in E. intros H. split; lra.
Qed.

Section WithCollation.
Variable localeCompare : string → string → number.

Lemma price_asc_ordered (products : list Product) :
  StronglySorted (λ a b, (price a <= price b)%Q)
    (sortProducts localeCompare products "price-asc").
Proof.
  apply (StronglySorted_weaken (inOrder byPriceAsc)).
  - intros x y. unfold inOrder, byPriceAsc. lra.
  - apply Array_sort_StronglySorted, byPriceAsc_Consistent.
Qed.

Lemma price_desc_ordered (products : list Product) :
  StronglySorted (λ a b, (price b <= price a)%Q)
    (sortProducts localeCompare products "price-desc").
Proof.
  apply (StronglySorted_weaken (inOrder byPriceDesc)).
  - intros x y. unfold inOrder, byPriceDesc. lra.
  - apply Array_sort_StronglySorted, byPriceDesc_Consistent.
Qed.

(** X9.  Sorted by ["price-asc"] every product stands before those that
    cost at least as much; sorted by ["price-desc"], before those that
    cost at most as much. *)
Theorem sortProducts_price_ordered (products : list Product) :
  StronglySorted (λ a b, (price a <= price b)%Q)
    (sortProducts localeCompare products "price-asc") ∧
  StronglySorted (λ a b, (price b <= price a)%Q)
    (sortProducts localeCompare products "price-desc").
Proof. split; [apply price_asc_ordered | apply price_desc_ordered]. Qed.

(** X15.  A list that is already in the order of a sort option, each
    product allowed to stand before the next, comes back from
    [sortProducts] unchanged. *)
Theorem sortProducts_of_ordered (products : list Product) (sortOption : string) :
  Sorted (mayPrecede localeCompare sortOption) products →
  sortProducts localeCompare products sortOption = products.
Proof.
  unfold sortProducts, mayPrecede. intros H.
  repeat match goal with
  | |- context [String.eqb sortOption ?tag] =>
      destruct (String.eqb sortOption tag);
      [apply Array_sort_of_Sorted; revert H; apply Sorted_inOrder; intros x y |]
  end; try done; unfold inOrder.
  - unfold byPriceAsc. lra.
  - unfold byPriceDesc. lra.
  - apply byRating_inOrder.
  - apply byReviews_inOrder.
Qed.

(** X12.  When no two products have the same price, ["price-desc"] is
    ["price-asc"] read backwards. *)
Theorem sortProducts_price_desc_reverse (products : list Product) :
  (∀ x y, x ∈ products → y ∈ products → (price x == price y)%Q → x = y) →
  sortProducts localeCompare products "price-desc" =
  reverse (sortProducts localeCompare products "price-asc").
Proof.
  intros Hties.
  apply (Array_sort_flip byPriceAsc products byPriceAsc_Consistent).
  intros x y Hx Hy H. apply Hties; [done..|]. unfold byPriceAsc in H. lra.
Qed.

(** X14.  The first product under ["price-asc"] has the lowest price
    [getPriceRange] reports, the first under ["price-desc"] the
    highest. *)
Theorem sortProducts_head_price (products : list Product) (x : Product) :
  (head (sortProducts localeCompare products "price-asc") = Some x →
   (price x == min (getPriceRange products))%Q) ∧
  (head (sortProducts localeCompare products "price-desc") = Some x →
   (price x == max (getPriceRange products))%Q).
Proof.
  pose proof (price_asc_ordered products) as Hasc.
  pose proof (price_desc_ordered products) as Hdesc.
  split; intros Hhd.
  - destruct (sortProducts localeCompare products "price-asc")
      as [|z rest] eqn:E; simplify_eq/=.
    assert (x :: rest ≡ₚ products) as Hperm
      by (rewrite <- E; apply Array_sort_Permutation).
    apply StronglySorted_inv in Hasc as [_ Hall]. rewrite Forall_forall in Hall.
    assert (∀ y, y ∈ products → (price x <= price y)%Q) as Hlow.
    { intros y Hy. rewrite <- Hperm in Hy.
      apply elem_of_cons in Hy as [-> | Hy]; [apply Qle_refl | by apply Hall]. }
    destruct products as [|p ps]; [by apply Permutation_nil_r in Hperm|].
    simpl. destruct (FilterFacts.Math_min_least (price p) (map price ps))
      as [Hin Hle].
    apply Qle_antisym.
    + change (Math_min (price p) (map price ps) ∈ price <$> (p :: ps)) in Hin.
      apply list_elem_of_fmap in Hin as (q & -> & Hq). by apply Hlow.
    + apply Hle. change (price x ∈ price <$> (p :: ps)).
      apply list_elem_of_fmap_2. rewrite <- Hperm. left.
  - destruct (sortProducts localeCompare products "price-desc")
      as [|z rest] eqn:E; simplify_eq/=.
    assert (x :: rest ≡ₚ products) as Hperm
      by (rewrite <- E; apply Array_sort_Permutation).
    apply StronglySorted_inv in Hdesc as [_ Hall]. rewrite Forall_forall in Hall.
    assert (∀ y, y ∈ products → (price y <= price x)%Q) as Hhigh.
    { intros y Hy. rewrite <- Hperm in Hy.
      apply elem_of_cons in Hy as [-> | Hy]; [apply Qle_refl | by apply Hall]. }
    destruct products as [|p ps]; [by apply Permutation_nil_r in Hperm|].
    simpl. destruct (FilterFacts.Math_max_greatest (price p) (map price ps))
      as [Hin Hge].
    apply Qle_antisym.
    + apply Hge. change (price x ∈ price <$> (p :: ps)).
      apply list_elem_of_fmap_2. rewrite <- Hperm. left.
    + change (Math_max (price p) (map price ps) ∈ price <$> (p :: ps)) in Hin.
      apply list_elem_of_fmap in Hin as (q & -> & Hq). by apply Hhigh.
Qed.

(** The host's collation is a consistent comparator. *)
Hypothesis localeCompare_consistent : Consistent localeCompare.

(** X10.  Sorted by ["name-asc"] every product stands before those
    whose name collates the same or later; sorted by ["name-desc"],
    before those whose name collates the same or earlier. *)
Theorem sortProducts_name_ordered (products : list Product) :
  StronglySorted (λ a b, (localeCompare (name a) (name b) <= 0)%Q)
    (sortProducts localeCompare products "name-asc") ∧
  StronglySorted (λ a b, (localeCompare (name b) (name a) <= 0)%Q)
    (sortProducts localeCompare products "name-desc").
Proof.
  split.
  - apply (Array_sort_StronglySorted (byNameAsc localeCompare)).
    by apply byNameAsc_Consistent.
  - apply (Array_sort_StronglySorted (byNameDesc localeCompare)).
    by apply byNameDesc_Consistent.
Qed.

(** X13.  When no two products have names that collate equal,
    ["name-desc"] is ["name-asc"] read backwards. *)
Theorem sortProducts_name_desc_reverse (products : list Product) :
  (∀ x y, x ∈ products → y ∈ products →
     (localeCompare (name x) (name y) == 0)%Q → x = y) →
  sortProducts localeCompare products "name-desc" =
  reverse (sortProducts localeCompare products "name-asc").
Proof.
  intros Hties.
  apply (Array_sort_flip (byNameAsc localeCompare) products); [|done].
  by apply byNameAsc_Consistent.
Qed.

(** X11.  Filtering and sorting commute: filtering the sorted list
    gives the list the grid shows, which sorts the filtered one. *)
Theorem filterProducts_sortProducts_commute (products : list Product)
    (criteria : FilterCriteria) (sortOption : string) :
  filterProducts (sortProducts localeCompare products sortOption) criteria =
  sortProducts localeCompare (filterProducts products criteria) sortOption.
Proof.
  unfold sortProducts, filterProducts.
  repeat match goal with
  | |- context [String.eqb sortOption ?tag] =>
      destruct (String.eqb sortOption tag); [apply filter_Array_sort |]
  end; try done;
    auto using byNameAsc_Consistent, byNameDesc_Consistent,
      byPriceAsc_Consistent, byPriceDesc_Consistent, byRating_Consistent,
      byReviews_Consistent.
Qed.

(** X25.  Under each of the six tags, when no two products compare
    equal under the keys of the tag, the sorted list does not depend on
    the order in which the products come. *)
Theorem sortProducts_order_independent (products products' : list Product)
    (sortOption : string) :
  sortOption ∈ SortOptions →
  (∀ x y, x ∈ products → y ∈ products →
     sameKeys localeCompare sortOption x y → x = y) →
  products ≡ₚ products' →
  sortProducts localeCompare products sortOption =
  sortProducts localeCompare products' sortOption.
Proof.
  intros Hs Hties Hperm.
  unfold SortOptions in Hs.
  repeat (apply elem_of_cons in Hs as [-> | Hs]);
    [.. | by apply elem_of_nil in Hs];
    unfold sortProducts, sameKeys in *; simpl in *;
    (apply Array_sort_of_Permutation; [|intros x y Hx Hy H; apply Hties; [done..|] | done]).
  - by apply byNameAsc_Consistent.
  - done.
  - by apply byNameDesc_Consistent.
  - unfold byNameDesc in H.
    by apply (compareFn_zero_sym localeCompare localeCompare_consistent).
  - apply byPriceAsc_Consistent.
  - unfold byPriceAsc in H. lra.
  - apply byPriceDesc_Consistent.
  - unfold byPriceDesc in H. lra.
  - apply byRating_Consistent.
  - by apply byRating_zero.
  - apply byReviews_Consistent.
  - by apply byReviews_zero.
Qed.

End WithCollation.

End SorterLaws.

(** ** More about the filter module *)

Module FilterLaws.
Import JS JSFacts ProductFilter Contract Vocabulary.
Import FilterFacts SortFacts SortLaws StringOrder CategoryFacts.

(** *** [getCategories] *)

Lemma Set_add_NoDup (seen : list string) (x : string) :
  NoDup seen → NoDup (Set_add seen x).
Proof.
  intros H. unfold Set_add. destruct (Array_includes seen x) eqn:E; [done|].
  apply NoDup_app. split; [done|]. split; [|apply NoDup_singleton].
  intros y Hy ->%list_elem_of_singleton.
  apply Array_includes_elem_of in Hy. congruence.
Qed.

Lemma Array_from_Set_NoDup (xs : list string) : NoDup (Array_from_Set xs).
Proof.
  unfold Array_from_Set. generalize (NoDup_nil_2 (A := string)).
  generalize (@nil string). induction xs as [|x xs IH]; intros seen H; simpl.
  - done.
  - by apply IH, Set_add_NoDup.
Qed.

Lemma getCategories_NoDup (products : list Product) :
  NoDup (getCategories products).
Proof.
  unfold getCategories. rewrite Array_sort_Permutation.
  apply Array_from_Set_NoDup.
Qed.

Lemma StronglySorted_strict (l : list string) :
  NoDup l → StronglySorted (inOrder defaultCompare) l → Ascending l.
Proof.
  unfold Ascending. intros Hnd Hs. induction Hs as [|x l Hl IH Hx].
  - constructor.
  - apply NoDup_cons in Hnd as [Hx' Hnd]. constructor; [by apply IH|].
    rewrite Forall_forall in Hx |- *. intros y Hy.
    specialize (Hx y Hy). apply defaultCompare_inOrder in Hx.
    destruct (String.compare x y) eqn:E; [|done..].
    apply String.compare_eq_iff in E as ->. done.
Qed.

(** X1.  [getCategories] lists the categories in strictly ascending
    code-unit order, so none of them twice. *)
Theorem getCategories_ascending (products : list Product) :
  Ascending (getCategories products) ∧ NoDup (getCategories products).
Proof.
  split; [|apply getCategories_NoDup].
  apply StronglySorted_strict; [apply getCategories_NoDup|].
  apply Array_sort_StronglySorted, defaultCompare_Consistent.
Qed.

(** *** [countProductsByCategory] *)

Lemma countProductsByCategory_snoc (products : list Product) (p : Product) :
  countProductsByCategory (products ++ [p]) =
  countStep (countProductsByCategory products) p.
Proof. unfold countProductsByCategory. by rewrite fold_left_app. Qed.

Lemma lookup_Object_set_ne (o : gmap string numeric) (k c : string) (v : numeric) :
  c ≠ k → Object_set o k v !! c = o !! c.
Proof.
  intros H. unfold Object_set. destruct (String.eqb k "__proto__"); [done|].
  by rewrite lookup_insert_ne.
Qed.

Lemma countStep_other (counts : gmap string numeric) (p : Product) (c : string) :
  c ≠ category p → countStep counts p !! c = counts !! c.
Proof.
  intros H. unfold countStep. cbv zeta. rewrite lookup_Object_set_ne by done.
  destruct (negb (truthy (Object_get counts (category p)))); [|done].
  by rewrite lookup_Object_set_ne.
Qed.

Lemma countOf_snoc (c : string) (products : list Product) (p : Product) :
  countOf c (products ++ [p]) =
  (countOf c products + if String.eqb (category p) c then 1 else 0)%nat.
Proof.
  unfold countOf. rewrite List.filter_app, length_app. simpl.
  by destruct (String.eqb (category p) c).
Qed.

Lemma countStep_entry (counts : gmap string numeric) (p : Product) (n : nat) :
  counts !! category p = entryFor (category p) n →
  countStep counts p !! category p = entryFor (category p) (S n).
Proof.
  unfold countStep, Object_get, Object_set, entryFor. cbv zeta.
  destruct (String.eqb_spec (category p) "__proto__") as [E|E].
  - rewrite E. intros H.
    assert (counts !! "__proto__" = None) as Hn by (by destruct n).
    change (inherits "__proto__") with true. rewrite Hn. simpl. exact Hn.
  - destruct (inherits (category p)); destruct n as [|[|m]]; intros H;
      rewrite H; simpl; rewrite ?lookup_insert_eq, ?H; simpl;
      rewrite ?lookup_insert_eq; try done; do 2 f_equal; lia.
Qed.

Lemma countProductsByCategory_entry (products : list Product) (c : string) :
  countProductsByCategory products !! c = entryFor c (countOf c products).
Proof.
  induction products as [|p products IH] using rev_ind; [done|].
  rewrite countProductsByCategory_snoc, countOf_snoc.
  destruct (String.eqb_spec (category p) c) as [<-|Hne].
  - rewrite Nat.add_1_r. by apply countStep_entry.
  - rewrite Nat.add_0_r, countStep_other by done. exact IH.
Qed.

(** X2.  Under a category name that an object literal does not inherit,
    the entry of [countProductsByCategory] is the number of products
    that carry it, and there is no entry when none does.  Under an
    inherited name other than ["__proto__"] the entry is [NaN] for one
    product and one less than their number for more; under
    ["__proto__"] there is never an entry. *)
Theorem countProductsByCategory_lookup (products : list Product) (c : string) :
  (inherits c = false →
   countProductsByCategory products !! c =
   if (countOf c products =? 0)%nat then None
   else Some (Num (Z.of_nat (countOf c products)))) ∧
  (inherits c = true → c ≠ "__proto__" →
   countProductsByCategory products !! c =
   match countOf c products with
   | O => None
   | S O => Some NaN
   | S m => Some (Num (Z.of_nat m))
   end) ∧
  (c = "__proto__" → countProductsByCategory products !! c = None).
Proof.
  rewrite countProductsByCategory_entry. unfold entryFor.
  split; [|split].
  - intros Hc. destruct (countOf c products) as [|m]; [done|].
    rewrite Hc. by destruct (String.eqb_spec c "__proto__") as [->|].
  - intros Hc Hne. destruct (countOf c products) as [|m]; [done|].
    rewrite Hc. apply String.eqb_neq in Hne as ->. by destruct m.
  - intros ->. by destruct (countOf "__proto__" products).
Qed.

(** *** [filterProducts] *)

Lemma filter_filter_comm {A : Type} (f g : A → bool) (l : list A) :
  List.filter f (List.filter g l) = List.filter g (List.filter f l).
Proof.
  induction l as [|x l IH]; simpl; [done|].
  destruct (f x) eqn:Ef, (g x) eqn:Eg; simpl; rewrite ?Ef, ?Eg, IH; done.
Qed.

Lemma filter_filter_same {A : Type} (f : A → bool) (l : list A) :
  List.filter f (List.filter f l) = List.filter f l.
Proof.
  induction l as [|x l IH]; simpl; [done|].
  destruct (f x) eqn:Ef; simpl; rewrite ?Ef, IH; done.
Qed.

Lemma filter_filter_andb {A : Type} (f g : A → bool) (l : list A) :
  List.filter f (List.filter g l) = List.filter (λ x, g x && f x) l.
Proof.
  induction l as [|x l IH]; simpl; [done|].
  destruct (g x) eqn:Eg; simpl; [|done]. destruct (f x); by rewrite IH.
Qed.

(** X4.  Filtering twice by the same criteria filters once, and two
    filters may be applied in either order. *)
Theorem filterProducts_idempotent_commute (products : list Product)
    (c1 c2 : FilterCriteria) :
  filterProducts (filterProducts products c1) c1 = filterProducts products c1 ∧
  filterProducts (filterProducts products c1) c2 =
  filterProducts (filterProducts products c2) c1.
Proof.
  unfold filterProducts. split; [apply filter_filter_same | apply filter_filter_comm].
Qed.

(** X3.  The range [getPriceRange] reports is not empty, and filtering
    the products by it keeps them all. *)
Theorem getPriceRange_covers (products : list Product) :
  (min (getPriceRange products) <= max (getPriceRange products))%Q ∧
  filterProducts products (priceOnly (getPriceRange products)) = products.
Proof.
  destruct products as [|p ps]; [by split|].
  destruct (Math_min_least (price p) (map price ps)) as [_ Hle].
  destruct (Math_max_greatest (price p) (map price ps)) as [_ Hge].
  split.
  - simpl. apply Qle_trans with (price p); [apply Hle | apply Hge]; left.
  - unfold filterProducts. apply filter_all_kept. intros q Hq.
    apply keeps_Satisfies. split; [|split; [|split]]; try by intros ? [=].
    intros r [= <-]. simpl.
    split; [apply Hle | apply Hge];
      change (price q ∈ price <$> (p :: ps)); by apply list_elem_of_fmap_2.
Qed.

(** X5.  [filterByCategories] with additional criteria filters by the
    selection and then by the additional criteria. *)
Theorem filterByCategories_additional (products : list Product)
    (selectedCategories : list string) (extra : AdditionalCriteria) :
  filterByCategories products selectedCategories (Some extra) =
  filterProducts (filterByCategories products selectedCategories None)
    (asCriteria extra).
Proof.
  unfold filterByCategories, filterProducts. rewrite filter_filter_andb.
  apply filter_ext. intros p. unfold keeps. simpl.
  unfold rejectedByCategories, rejectedByPriceRange, rejectedByMinRating,
    rejectedBySearchTerm. simpl.
  by destruct (0 <? length selectedCategories)%nat; simpl;
    repeat case_match.
Qed.

(** X7.  Only the set of selected categories matters to
    [filterByCategories], not their order or repetitions. *)
Theorem filterByCategories_same_set (products : list Product)
    (sel1 sel2 : list string) (extra : option AdditionalCriteria) :
  (∀ c, c ∈ sel1 ↔ c ∈ sel2) →
  filterByCategories products sel1 extra = filterByCategories products sel2 extra.
Proof.
  intros Hset. unfold filterByCategories, filterProducts.
  apply filter_ext. intros p.
  assert (Array_includes sel1 (category p) = Array_includes sel2 (category p))
    as Hinc.
  { apply eq_true_iff_eq. by rewrite !Array_includes_elem_of. }
  assert ((0 <? length sel1)%nat = (0 <? length sel2)%nat) as Hlen.
  { destruct sel1 as [|a sel1], sel2 as [|b sel2]; simpl; [done | | | done];
      exfalso; [apply (elem_of_nil b) | apply (elem_of_nil a)]; apply Hset; left. }
  unfold keeps, rejectedByCategories, rejectedByPriceRange,
    rejectedByMinRating, rejectedBySearchTerm.
  cbn [categories priceRange minRating searchTerm].
  rewrite Hlen. destruct (0 <? length sel2)%nat eqn:E; [|done].
  by rewrite Hlen, E, Hinc.
Qed.

(** X8.  Selecting every category [getCategories] offers keeps every
    product, as selecting none does. *)
Theorem filterByCategories_all (products : list Product) :
  filterByCategories products (getCategories products) None = products.
Proof.
  unfold filterByCategories, filterProducts. apply filter_all_kept.
  intros p Hp. apply keeps_Satisfies.
  split; [|split; [|split]]; try by intros ? [=].
  simpl. intros cs Hcs _. destruct (0 <? length (getCategories products))%nat;
    simpl in Hcs; simplify_eq. apply elem_of_getCategories.
  change (category p ∈ category <$> products). by apply list_elem_of_fmap_2.
Qed.

End FilterLaws.

(** ** Searching without regard to case *)

Module SearchLaws.
Import JS JSFacts ProductFilter Contract Vocabulary FilterFacts.

Lemma isWhiteSpace_lowerUnit (c : ascii) :
  isWhiteSpace (lowerUnit c) = isWhiteSpace c.
Proof. by destruct c as [[] [] [] [] [] [] [] []]. Qed.

Lemma trimStart_toLowerCase (s : string) :
  trimStart (toLowerCase s) = toLowerCase (trimStart s).
Proof.
  induction s as [|c s IH]; simpl; [done|].
  rewrite isWhiteSpace_lowerUnit. by destruct (isWhiteSpace c).
Qed.

Lemma trimEnd_toLowerCase (s : string) :
  trimEnd (toLowerCase s) = toLowerCase (trimEnd s).
Proof.
  induction s as [|c s IH]; simpl; [done|].
  rewrite IH, isWhiteSpace_lowerUnit.
  destruct (trimEnd s); simpl; [by destruct (isWhiteSpace c) | done].
Qed.

Lemma trim_toLowerCase (s : string) : trim (toLowerCase s) = toLowerCase (trim s).
Proof. unfold trim. by rewrite trimStart_toLowerCase, trimEnd_toLowerCase. Qed.

Lemma toLowerCase_empty (s : string) : toLowerCase s = "" ↔ s = "".
Proof. by destruct s. Qed.

Lemma blank_toLowerCase (t1 t2 : string) :
  toLowerCase t1 = toLowerCase t2 → (trim t1 = "" ↔ trim t2 = "").
Proof.
  intros H. rewrite <- (toLowerCase_empty (trim t1)), <- (toLowerCase_empty (trim t2)).
  by rewrite <- !trim_toLowerCase, H.
Qed.

(** X6.  The search does not look at the case of the term: two terms
    with the same lower-case form select the same products. *)
Theorem filterProducts_search_case (products : list Product)
    (criteria : FilterCriteria) (t1 t2 : string) :
  toLowerCase t1 = toLowerCase t2 →
  filterProducts products (withSearch criteria t1) =
  filterProducts products (withSearch criteria t2).
Proof.
  intros H. unfold filterProducts. apply filter_ext. intros p.
  unfold keeps, rejectedByCategories, rejectedByPriceRange,
    rejectedByMinRating, rejectedBySearchTerm.
  cbn [withSearch categories priceRange minRating searchTerm]. cbv zeta.
  assert (negb (String.eqb t1 "") && (0 <? String.length (trim t1))%nat =
          negb (String.eqb t2 "") && (0 <? String.length (trim t2))%nat) as ->.
  { apply eq_true_iff_eq. rewrite !nonblank_guard.
    by rewrite (blank_toLowerCase t1 t2). }
  by rewrite H.
Qed.

End SearchLaws.

(** ** The selection of categories *)

Module CatalogLaws.
Import JS JSFacts Contract Vocabulary SortFacts SortLaws StringOrder.
Import ProductGrid Catalog.

Lemma Ascending_NoDup (l : list string) : Ascending l → NoDup l.
Proof.
  induction 1 as [|x l Hl IH Hx]; constructor; [|done].
  rewrite Forall_forall in Hx. intros Hin. specialize (Hx x Hin).
  by rewrite compare_refl in Hx.
Qed.

Lemma Ascending_filter (f : string → bool) (l : list string) :
  Ascending l → Ascending (List.filter f l).
Proof.
  unfold Ascending. induction 1 as [|x l Hl IH Hx]; simpl; [constructor|].
  destruct (f x); [|done]. constructor; [done|].
  rewrite Forall_forall in Hx |- *. intros y Hy. apply Hx.
  apply list_elem_of_In, filter_In in Hy as [Hy _]. by apply list_elem_of_In.
Qed.

Lemma Ascending_unique (l1 l2 : list string) :
  Ascending l1 → Ascending l2 → l1 ≡ₚ l2 → l1 = l2.
Proof.
  apply StronglySorted_unique_strong. intros x y _ _ H1 H2.
  apply compare_Gt_Lt in H2. congruence.
Qed.

Lemma Ascending_sorted (l : list string) :
  NoDup l → Ascending (Array_sort defaultCompare l).
Proof.
  intros H. apply FilterLaws.StronglySorted_strict.
  - by rewrite Array_sort_Permutation.
  - apply Array_sort_StronglySorted, defaultCompare_Consistent.
Qed.

Lemma elem_of_deselect (prev : list string) (category x : string) :
  x ∈ handleCategoryChange category false prev ↔ x ∈ prev ∧ x ≠ category.
Proof.
  unfold handleCategoryChange. rewrite list_elem_of_In, filter_In.
  rewrite <- list_elem_of_In, negb_true_iff. by rewrite String.eqb_neq.
Qed.

Lemma elem_of_select (prev : list string) (category x : string) :
  x ∈ handleCategoryChange category true prev ↔ x ∈ prev ∨ x = category.
Proof.
  unfold handleCategoryChange. rewrite Array_sort_Permutation.
  by rewrite elem_of_app, list_elem_of_singleton.
Qed.

Lemma deselect_absent (prev : list string) (category : string) :
  category ∉ prev → handleCategoryChange category false prev = prev.
Proof.
  intros H. unfold handleCategoryChange. apply FilterFacts.filter_all_kept.
  intros x Hx. apply negb_true_iff, String.eqb_neq. by intros ->.
Qed.

Lemma deselect_rest (prev : list string) (category : string) :
  ∃ k, prev ≡ₚ replicate k category ++ handleCategoryChange category false prev.
Proof.
  unfold handleCategoryChange. induction prev as [|c prev [k IH]]; simpl.
  - by exists 0%nat.
  - destruct (String.eqb_spec c category) as [->|Hne]; simpl.
    + exists (S k). simpl. by rewrite <- IH.
    + exists k. by rewrite <- Permutation_middle, <- IH.
Qed.

(** X16.  Selecting a category gives the previous selection with the
    category added, even if it was there, in ascending code-unit order
    whatever the order before; deselecting it removes every occurrence
    of it and leaves every other entry, each as often as before and in
    the order they had. *)
Theorem handleCategoryChange_effect (prev : list string) (category : string) :
  (handleCategoryChange category true prev ≡ₚ category :: prev ∧
   StronglySorted (λ a b, String.compare a b ≠ Gt)
     (handleCategoryChange category true prev)) ∧
  (sublist (handleCategoryChange category false prev) prev ∧
   (∀ x, x ∈ handleCategoryChange category false prev ↔ x ∈ prev ∧ x ≠ category) ∧
   ∃ k, prev ≡ₚ replicate k category ++ handleCategoryChange category false prev).
Proof.
  split; [split | split; [|split]].
  - unfold handleCategoryChange. rewrite Array_sort_Permutation.
    by rewrite Permutation_app_comm.
  - unfold handleCategoryChange.
    apply (SorterLaws.StronglySorted_weaken (inOrder defaultCompare)).
    + intros x y. apply defaultCompare_inOrder.
    + apply Array_sort_StronglySorted, defaultCompare_Consistent.
  - unfold handleCategoryChange. induction prev as [|c prev IH]; simpl.
    + constructor.
    + destruct (negb (String.eqb c category)); by constructor.
  - intros x. apply elem_of_deselect.
  - apply deselect_rest.
Qed.

Lemma toggle_unfold (selected : list string) (category : string) :
  toggle selected category =
  handleCategoryChange category (negb (Array_includes selected category)) selected.
Proof. reflexivity. Qed.

Lemma toggle_Ascending (selected : list string) (category : string) :
  Ascending selected → Ascending (toggle selected category).
Proof.
  intros H. rewrite toggle_unfold.
  destruct (Array_includes selected category) eqn:E; simpl.
  - by apply Ascending_filter.
  - apply Ascending_sorted, NoDup_app. split; [by apply Ascending_NoDup|].
    split; [|apply NoDup_singleton].
    intros x Hx ->%list_elem_of_singleton.
    apply Array_includes_elem_of in Hx. congruence.
Qed.

Lemma clear_removes (cs selected : list string) (x : string) :
  x ∈ fold_left (λ st category, handleCategoryChange category false st) cs selected ↔
  x ∈ selected ∧ x ∉ cs.
Proof.
  revert selected. induction cs as [|c cs IH]; intros selected; cbn [fold_left].
  - rewrite elem_of_nil. tauto.
  - rewrite IH, elem_of_deselect, not_elem_of_cons. tauto.
Qed.

Lemma clear_nil (selected : list string) : clear selected = [].
Proof.
  apply elem_of_nil_inv. intros x Hx.
  apply clear_removes in Hx as [? ?]. done.
Qed.

(** X19.  The panel's "Clear", which deselects the selected categories
    one by one, leaves the empty selection, as the grid's own "Clear
    filters" does. *)
Theorem clear_empties (selected : list string) :
  clear selected = [] ∧ clear selected = handleClearFilters selected.
Proof. by rewrite clear_nil. Qed.

(** X17.  Whatever the user does, the selection is strictly ascending
    in code-unit order, so it never lists a category twice. *)
Theorem run_Ascending (events : list Event) :
  Ascending (run events) ∧ NoDup (run events).
Proof.
  assert (Ascending (run events)) as H; [|split; [done | by apply Ascending_NoDup]].
  unfold run. assert (Ascending []) as H0 by constructor.
  revert H0. generalize (@nil string).
  induction events as [|e events IH]; intros selected H; simpl; [done|].
  apply IH. destruct e; simpl.
  - by apply toggle_Ascending.
  - rewrite clear_nil. constructor.
  - constructor.
Qed.

Lemma elem_of_toggle (selected : list string) (category x : string) :
  x ∈ toggle selected category ↔
  (x ∈ selected ∧ x ≠ category) ∨ (x = category ∧ category ∉ selected).
Proof.
  rewrite toggle_unfold.
  destruct (Array_includes selected category) eqn:E; cbn [negb].
  - apply Array_includes_elem_of in E. rewrite elem_of_deselect. tauto.
  - assert (category ∉ selected) as Hc
      by (rewrite <- Array_includes_elem_of; congruence).
    rewrite elem_of_select. split; [|tauto].
    intros [Hx | ->]; [left | tauto]. split; [done|]. by intros ->.
Qed.

(** X18.  On a strictly ascending selection a click on a check box
    flips that category and no other, and a second click restores the
    selection. *)
Theorem toggle_flips (selected : list string) (category : string) :
  Ascending selected →
  (category ∈ toggle selected category ↔ category ∉ selected) ∧
  (∀ x, x ≠ category → (x ∈ toggle selected category ↔ x ∈ selected)) ∧
  toggle (toggle selected category) category = selected.
Proof.
  intros Hasc. split; [|split].
  - rewrite elem_of_toggle. tauto.
  - intros x Hx. rewrite elem_of_toggle. tauto.
  - apply Ascending_unique; [by do 2 apply toggle_Ascending | done |].
    apply NoDup_Permutation.
    + by apply Ascending_NoDup; do 2 apply toggle_Ascending.
    + by apply Ascending_NoDup.
    + intros x. rewrite !elem_of_toggle.
      destruct (decide (x = category)) as [->|];
        destruct (decide (category ∈ selected)); tauto.
Qed.

End CatalogLaws.

(** ** What the grid shows *)

Module ViewLaws.
Import JS JSFacts ProductFilter ProductSorter Contract Vocabulary.
Import FilterFacts SortFacts CategoryFacts ProductGrid ProductFilterPanel.

Lemma sortProducts_rearranges (localeCompare : string → string → number)
    (products : list Product) (sortOption : string) :
  sortProducts localeCompare products sortOption ≡ₚ products.
Proof.
  unfold sortProducts.
  repeat match goal with
  | |- context [String.eqb sortOption ?tag] =>
      destruct (String.eqb sortOption tag); [apply Array_sort_Permutation |]
  end.
  reflexivity.
Qed.

(** With a selection, [filterByCategories] keeps the products whose
    category is in it. *)
Lemma filterByCategories_selected (products : list Product) (sel : list string) :
  sel ≠ [] →
  filterByCategories products sel None =
  List.filter (λ p, Array_includes sel (category p)) products.
Proof.
  intros Hne. unfold filterByCategories, filterProducts. apply filter_ext.
  intros p. unfold keeps, rejectedByCategories, rejectedByPriceRange,
    rejectedByMinRating, rejectedBySearchTerm.
  destruct sel as [|c sel]; [done|]. simpl.
  by destruct (String.eqb (category p) c || Array_includes sel (category p)).
Qed.

Lemma length_filter_selected (products : list Product) (sel : list string) :
  NoDup sel →
  Num (Z.of_nat
         (length (List.filter (λ p, Array_includes sel (category p)) products))) =
  sumOver (λ c, Num (Z.of_nat (countOf c products))) sel.
Proof.
  induction 1 as [|c sel Hc Hsel IH]; simpl.
  - by induction products.
  - rewrite <- IH. clear IH. simpl. f_equal. unfold countOf.
    induction products as [|p ps IHp]; simpl; [done|].
    destruct (String.eqb_spec (category p) c) as [E|E]; simpl.
    + assert (Array_includes sel (category p) = false) as ->.
      { apply not_true_iff_false. rewrite Array_includes_elem_of. by rewrite E. }
      simpl length. lia.
    + destruct (Array_includes sel (category p)); simpl length; lia.
Qed.

(** Under a plain name the panel shows the number of products of the
    category. *)
Lemma productCount_countOf (products : list Product) (c : string) :
  inherits c = false →
  ToNumber (productCount (Some (countProductsByCategory products)) c) =
  Num (Z.of_nat (countOf c products)).
Proof.
  intros Hc. unfold productCount, Object_get. cbv zeta.
  rewrite FilterLaws.countProductsByCategory_entry. unfold entryFor.
  destruct (countOf c products) as [|m]; [by rewrite Hc|].
  rewrite Hc. destruct (String.eqb_spec c "__proto__") as [->|]; [done|].
  reflexivity.
Qed.

Lemma sumOver_ext (f g : string → numeric) (cs : list string) :
  (∀ c, c ∈ cs → f c = g c) → sumOver f cs = sumOver g cs.
Proof.
  intros H. induction cs as [|c cs IH]; simpl; [done|].
  rewrite H by left. rewrite IH; [done|]. intros c' Hc'. apply H. by right.
Qed.

Lemma add_comm (a b : numeric) : add a b = add b a.
Proof. destruct a, b; simpl; f_equal; lia. Qed.

(** The sum of the values of a dictionary whose entries are the numbers
    of products of their categories. *)
Lemma sum_of_entries (products : list Product) (l : list (string * numeric)) :
  (∀ k v, (k, v) ∈ l → v = Num (Z.of_nat (countOf k products))) →
  foldr (λ kv sum, add sum kv.2) (Num 0) l =
  sumOver (λ c, Num (Z.of_nat (countOf c products))) l.*1.
Proof.
  intros H. induction l as [|[k v] l IH]; simpl; [done|].
  rewrite IH by (intros k' v' Hkv; apply H; by right).
  rewrite (H k v) by left. apply add_comm.
Qed.

Lemma countOf_positive (products : list Product) (p : Product) :
  p ∈ products → (0 < countOf (category p) products)%nat.
Proof.
  intros Hp. unfold countOf.
  assert (p ∈ List.filter (λ q, String.eqb (category q) (category p)) products)
    as Hin.
  { apply list_elem_of_In, filter_In. split; [by apply list_elem_of_In|].
    apply String.eqb_refl. }
  destruct (List.filter _ products); [by apply elem_of_nil in Hin | simpl; lia].
Qed.

Lemma countOf_zero (products : list Product) (c : string) :
  (∀ p, p ∈ products → category p ≠ c) → countOf c products = 0%nat.
Proof.
  intros H. unfold countOf.
  induction products as [|p ps IH]; simpl; [done|].
  destruct (String.eqb_spec (category p) c) as [E|E].
  - exfalso. apply (H p); [left | done].
  - apply IH. intros q Hq. apply H. by right.
Qed.

Lemma countOf_member (products : list Product) (c : string) :
  (0 < countOf c products)%nat → ∃ p, c = category p ∧ p ∈ products.
Proof.
  unfold countOf. intros H.
  destruct (List.filter (λ p, String.eqb (category p) c) products)
    as [|p l] eqn:E; [simpl in H; lia|].
  assert (In p (List.filter (λ p, String.eqb (category p) c) products)) as Hin
    by (rewrite E; by left).
  apply filter_In in Hin as [Hp Hc]. apply String.eqb_eq in Hc.
  exists p. split; [done | by apply list_elem_of_In].
Qed.

Lemma plain_entry (products : list Product) (k : string) (v : numeric) :
  PlainCategories products →
  countProductsByCategory products !! k = Some v →
  inherits k = false ∧ v = Num (Z.of_nat (countOf k products)).
Proof.
  intros Hplain. rewrite FilterLaws.countProductsByCategory_entry.
  destruct (inherits k) eqn:Hk.
  - rewrite countOf_zero; [done|]. intros p Hp <-.
    specialize (Hplain p Hp). congruence.
  - unfold entryFor. destruct (countOf k products) as [|m]; [done|].
    rewrite Hk. destruct (String.eqb k "__proto__"); [done|].
    intros [= <-]. done.
Qed.

(** Where every category is a plain name the dictionary works as a
    dictionary: its keys are the categories of [getCategories] and every
    count is a positive number of products. *)
Lemma countProductsByCategory_plain_names (products : list Product) :
  PlainCategories products →
  dom (countProductsByCategory products) = list_to_set (getCategories products) ∧
  map_Forall (λ k v, v = Num (Z.of_nat (countOf k products)) ∧
                     (0 < countOf k products)%nat)
    (countProductsByCategory products).
Proof.
  intros Hplain. split.
  - apply set_eq. intros c.
    rewrite elem_of_dom, elem_of_list_to_set, elem_of_getCategories.
    change (is_Some (countProductsByCategory products !! c) ↔
            c ∈ category <$> products).
    rewrite list_elem_of_fmap. split.
    + intros [v Hv]. destruct (plain_entry products c v Hplain Hv) as [Hc ->].
      rewrite FilterLaws.countProductsByCategory_entry in Hv.
      apply countOf_member. destruct (countOf c products); [done | lia].
    + intros (p & -> & Hp).
      rewrite FilterLaws.countProductsByCategory_entry. unfold entryFor.
      pose proof (countOf_positive products p Hp) as Hpos.
      destruct (countOf (category p) products) as [|m]; [lia|].
      rewrite (Hplain p Hp).
      destruct (String.eqb_spec (category p) "__proto__") as [E|]; [|done].
      specialize (Hplain p Hp). by rewrite E in Hplain.
  - intros k v Hv. destruct (plain_entry products k v Hplain Hv) as [Hk ->].
    split; [done|].
    rewrite FilterLaws.countProductsByCategory_entry in Hv.
    destruct (countOf k products); [done | lia].
Qed.

(** X22.  When no category is a name that object literals inherit,
    [totalProducts] of the counts of a catalogue is the number of its
    products, and so is the sum of the counts the panel shows next to
    the categories of [getCategories]. *)
Theorem totalProducts_length (products : list Product) :
  PlainCategories products →
  totalProducts (Some (countProductsByCategory products)) =
    Num (Z.of_nat (length products)) ∧
  sumOver (λ c, ToNumber (productCount (Some (countProductsByCategory products)) c))
    (getCategories products) = Num (Z.of_nat (length products)).
Proof.
  intros Hplain.
  assert (∀ sel, NoDup sel →
            (∀ p, p ∈ products → category p ∈ sel) →
            sumOver (λ c, Num (Z.of_nat (countOf c products))) sel =
            Num (Z.of_nat (length products))) as Hall.
  { intros sel Hnd Hin. rewrite <- length_filter_selected by done.
    do 3 f_equal. apply filter_all_kept. intros p Hp.
    by apply Array_includes_elem_of, Hin. }
  split.
  - unfold totalProducts. rewrite map_fold_foldr.
    rewrite (foldr_ext _ (λ kv sum, add sum kv.2) _ (Num 0) _
               (map_to_list (countProductsByCategory products)))
      by (done || by intros [k v] acc).
    rewrite (sum_of_entries products).
    + apply Hall; [apply NoDup_fst_map_to_list|].
      intros p Hp. apply list_elem_of_fmap.
      exists (category p, Num (Z.of_nat (countOf (category p) products))).
      split; [done|]. apply elem_of_map_to_list.
      rewrite FilterLaws.countProductsByCategory_entry. unfold entryFor.
      pose proof (countOf_positive products p Hp) as Hpos.
      destruct (countOf (category p) products) as [|m]; [lia|].
      rewrite (Hplain p Hp).
      destruct (String.eqb_spec (category p) "__proto__") as [E|]; [|done].
      specialize (Hplain p Hp). by rewrite E in Hplain.
    + intros k v Hkv%elem_of_map_to_list.
      by apply (plain_entry products k v Hplain).
  - rewrite (sumOver_ext _ (λ c, Num (Z.of_nat (countOf c products)))).
    + apply Hall; [apply FilterLaws.getCategories_NoDup|].
      intros p Hp. apply elem_of_getCategories.
      change (category p ∈ category <$> products). by apply list_elem_of_fmap_2.
    + intros c Hc. apply productCount_countOf.
      apply elem_of_getCategories in Hc.
      change (c ∈ category <$> products) in Hc.
      apply list_elem_of_fmap in Hc as (p & -> & Hp). by apply Hplain.
Qed.

Section WithCollation.
Variable localeCompare : string → string → number.

(** X21.  With a non-empty selection that lists no category twice, and
    no selected category a name that object literals inherit, the
    number of products the grid shows is the sum of the counts the
    panel shows next to the selected categories. *)
Theorem shown_count (products : list Product) (sel : list string)
    (sortOption : string) :
  sel ≠ [] → NoDup sel → (∀ c, c ∈ sel → inherits c = false) →
  sumOver (λ c, ToNumber (productCount (Some (countProductsByCategory products)) c))
    sel =
  Num (Z.of_nat
         (length (filteredAndSortedProducts localeCompare products sel sortOption))).
Proof.
  intros Hne Hnd Hplain. unfold filteredAndSortedProducts. cbv zeta.
  rewrite sortProducts_rearranges, filterByCategories_selected by done.
  rewrite length_filter_selected by done.
  apply sumOver_ext. intros c Hc. apply productCount_countOf. by apply Hplain.
Qed.

(** X20.  The grid has nothing to show exactly when there are no
    products, or there is a selection and no product is of a selected
    category. *)
Theorem shown_empty (products : list Product) (sel : list string)
    (sortOption : string) :
  filteredAndSortedProducts localeCompare products sel sortOption = [] ↔
  products = [] ∨ (sel ≠ [] ∧ ∀ p, p ∈ products → category p ∉ sel).
Proof.
  unfold filteredAndSortedProducts. cbv zeta.
  assert (∀ l, sortProducts localeCompare l sortOption = [] ↔ l = []) as Hs.
  { intros l. split.
    - intros H. apply Permutation_nil_r.
      by rewrite <- (sortProducts_rearranges localeCompare l sortOption), H.
    - intros ->. apply Permutation_nil_r, sortProducts_rearranges. }
  rewrite Hs. destruct sel as [|c sel].
  - assert (filterByCategories products [] None = products) as ->
      by (unfold filterByCategories, filterProducts; by apply filter_all_kept).
    split; [by left | by intros [? | [? _]]].
  - rewrite filterByCategories_selected by done. split.
    + intros H. right. split; [done|]. intros p Hp Hin.
      apply Array_includes_elem_of in Hin.
      assert (p ∈ List.filter (λ p, Array_includes (c :: sel) (category p)) products)
        as Hp' by (apply list_elem_of_In, filter_In; by rewrite <- list_elem_of_In).
      rewrite H in Hp'. by apply elem_of_nil in Hp'.
    + intros [-> | [_ H]]; [done|]. apply elem_of_nil_inv. intros p Hp.
      apply list_elem_of_In, filter_In in Hp as [Hp Hin].
      apply list_elem_of_In in Hp. apply Array_includes_elem_of in Hin.
      by apply (H p).
Qed.

End WithCollation.

End ViewLaws.

(** ** The star row *)

Module StarLaws.
Import JS JSFacts JSMath ProductCard Vocabulary.

Lemma remainder_one (rating : number) :
  (0 <= rating)%Q →
  (remainder rating 1 == rating - inject_Z (Qfloor rating))%Q.
Proof.
  intros H. unfold remainder, trunc.
  assert (rating / 1 == rating)%Q as E by field.
  assert (Qle_bool 0 (rating / 1) = true) as ->
    by (apply Qle_bool_iff; by rewrite E).
  rewrite (Qfloor_comp _ _ E). ring.
Qed.

Lemma hasHalfStar_false (rating : number) :
  (0 <= rating)%Q →
  hasHalfStar rating = false ↔ (rating == inject_Z (Qfloor rating))%Q.
Proof.
  intros H. unfold hasHalfStar. rewrite neq_false, remainder_one by done.
  split; intros E; lra.
Qed.

Lemma floor_range (rating : number) :
  (0 <= rating)%Q → (rating <= 5)%Q → 0 ≤ Qfloor rating ≤ 5.
Proof.
  intros H0 H5. split.
  - apply (Qfloor_resp_le 0 rating H0).
  - apply (Qfloor_resp_le rating 5 H5).
Qed.

(** X24.  The row always has five places.  A rating of five or more
    fills them all, a negative rating none. *)
Theorem StarRating_clamped (rating : number) :
  length (StarRating rating) = 5%nat ∧
  ((5 <= rating)%Q → StarRating rating = replicate 5 FullStar) ∧
  ((rating < 0)%Q → StarRating rating = replicate 5 EmptyStar).
Proof.
  split; [reflexivity|]. split; intros H.
  - assert (5 ≤ Qfloor rating) as Hf by apply (Qfloor_resp_le 5 rating H).
    unfold StarRating, fullStars, Math_floor. cbn [map].
    repeat match goal with
    | |- context [(?i <? Qfloor rating)] =>
        replace (i <? Qfloor rating) with true by (symmetry; apply Z.ltb_lt; lia)
    | |- context [(?i =? Qfloor rating)] =>
        replace (i =? Qfloor rating) with false by (symmetry; apply Z.eqb_neq; lia)
    end.
    by rewrite !andb_false_r.
  - assert (Qfloor rating < 0) as Hf.
    { destruct (Z_lt_le_dec (Qfloor rating) 0) as [|Hge]; [done|].
      pose proof (Qfloor_le rating) as Hlo.
      assert (inject_Z 0 <= inject_Z (Qfloor rating))%Q as Hle
        by (by rewrite <- Zle_Qle).
      exfalso. change (inject_Z 0) with 0%Q in Hle. lra. }
    unfold StarRating, fullStars, Math_floor. cbn [map].
    repeat match goal with
    | |- context [(?i <? Qfloor rating)] =>
        replace (i <? Qfloor rating) with false by (symmetry; apply Z.ltb_ge; lia)
    | |- context [(?i =? Qfloor rating)] =>
        replace (i =? Qfloor rating) with false by (symmetry; apply Z.eqb_neq; lia)
    end.
    by rewrite !andb_false_r.
Qed.

(** Evaluate the whole numbers that stand as rationals. *)
Ltac numerals :=
  repeat match goal with
  | H : context [inject_Z ?z] |- _ =>
      let q := eval vm_compute in (inject_Z z) in
      change (inject_Z z) with q in H
  end.

(** X23.  For a rating from zero to five the row shows the rating to
    within half a star, and shows it exactly when it is a whole
    number. *)
Theorem StarRating_accurate (rating : number) :
  (0 <= rating)%Q → (rating <= 5)%Q →
  (rating - (1 # 2) < starsValue (StarRating rating))%Q ∧
  (starsValue (StarRating rating) < rating + (1 # 2))%Q ∧
  ((rating == inject_Z (Qfloor rating))%Q →
   (starsValue (StarRating rating) == rating)%Q).
Proof.
  intros H0 H5.
  pose proof (floor_range rating H0 H5) as Hn.
  pose proof (Qfloor_le rating) as Hlo.
  pose proof (Qlt_floor rating) as Hhi.
  pose proof (hasHalfStar_false rating H0) as Hhalf.
  unfold StarRating, fullStars, Math_floor.
  destruct (hasHalfStar rating);
    [assert (¬ (rating == inject_Z (Qfloor rating))%Q) as Hne
       by (intros E; by apply Hhalf in E)
    | assert (rating == inject_Z (Qfloor rating))%Q as He by (by apply Hhalf)];
    clear Hhalf;
    assert (Qfloor rating = 0 ∨ Qfloor rating = 1 ∨ Qfloor rating = 2 ∨
            Qfloor rating = 3 ∨ Qfloor rating = 4 ∨ Qfloor rating = 5)
      as Hcases by lia;
    destruct Hcases as [E|[E|[E|[E|[E|E]]]]]; rewrite E in *;
    unfold starsValue, starValue; simpl;
    repeat split; intros; numerals; try lra;
    exfalso; apply Hne; lra.
Qed.

End StarLaws.

(** ** The aggregates do not depend on the order of the products *)

Module AggregateLaws.
Import JS JSFacts ProductFilter Contract Vocabulary.
Import FilterFacts CategoryFacts CatalogLaws.

Lemma countOf_Permutation (c : string) (l1 l2 : list Product) :
  l1 ≡ₚ l2 → countOf c l1 = countOf c l2.
Proof.
  unfold countOf. induction 1 as [|x l1 l2 H IH|x y l|l1 l2 l3 H1 IH1 H2 IH2];
    simpl; [done | | | congruence].
  - destruct (String.eqb (category x) c); simpl; by rewrite IH.
  - by destruct (String.eqb (category x) c), (String.eqb (category y) c).
Qed.

(** X26.  Listing the products in another order changes neither the
    categories [getCategories] returns nor the entry any category has
    in the result of [countProductsByCategory]. *)
Theorem aggregates_order_independent (products products' : list Product) :
  products ≡ₚ products' →
  getCategories products = getCategories products' ∧
  ∀ c, countProductsByCategory products !! c =
       countProductsByCategory products' !! c.
Proof.
  intros Hperm. split.
  - apply Ascending_unique.
    + apply FilterLaws.StronglySorted_strict; [apply FilterLaws.getCategories_NoDup|].
      apply SortLaws.Array_sort_StronglySorted, StringOrder.defaultCompare_Consistent.
    + apply FilterLaws.StronglySorted_strict; [apply FilterLaws.getCategories_NoDup|].
      apply SortLaws.Array_sort_StronglySorted, StringOrder.defaultCompare_Consistent.
    + apply NoDup_Permutation; [apply FilterLaws.getCategories_NoDup..|].
      intros c. rewrite !elem_of_getCategories.
      change (c ∈ category <$> products ↔ c ∈ category <$> products').
      by rewrite Hperm.
  - intros c. rewrite !FilterLaws.countProductsByCategory_entry.
    by rewrite (countOf_Permutation c products products').
Qed.

End AggregateLaws.

(** ** The properties at work *)

Module Instances.
Import JS ProductFilter ProductSorter Contract Vocabulary StringOrder.
Import ProductGrid ProductFilterPanel ProductCard Catalog.

Lemma XY_same_set (c : string) : c ∈ ["X"; "Y"] ↔ c ∈ ["Y"; "X"; "X"].
Proof. rewrite !elem_of_cons, elem_of_nil. tauto. Qed.

Lemma Ann_Zed_prices (x y : Product) :
  x ∈ [Ann; Zed] → y ∈ [Ann; Zed] → (price x == price y)%Q → x = y.
Proof.
  rewrite !elem_of_cons, !elem_of_nil.
  intros [->|[->|[]]] [->|[->|[]]] H; try done; vm_compute in H; discriminate.
Qed.

Lemma Ann_Zed_names (x y : Product) :
  x ∈ [Ann; Zed] → y ∈ [Ann; Zed] →
  (defaultCompare (name x) (name y) == 0)%Q → x = y.
Proof.
  rewrite !elem_of_cons, !elem_of_nil.
  intros [->|[->|[]]] [->|[->|[]]] H; try done; vm_compute in H; discriminate.
Qed.

Lemma Ann_Zed_price_keys (x y : Product) :
  x ∈ [Ann; Zed] → y ∈ [Ann; Zed] →
  sameKeys defaultCompare "price-asc" x y → x = y.
Proof. apply Ann_Zed_prices. Qed.

Lemma by_price_ordered :
  Sorted (mayPrecede defaultCompare "price-asc") [Zed; Bob; Ann].
Proof. repeat constructor; vm_compute; discriminate. Qed.

Lemma X_Ascending : Ascending ["X"].
Proof. repeat constructor. Qed.

Lemma X_NoDup : NoDup ["X"].
Proof. apply NoDup_singleton. Qed.

Lemma filterProducts_search_case_witness :
  toLowerCase "AN" = toLowerCase "an" ∧
  filterProducts [Zed; Ann] (withSearch (searchOnly "") "AN") =
  filterProducts [Zed; Ann] (withSearch (searchOnly "") "an").
Proof.
  split; [reflexivity|].
  exact (SearchLaws.filterProducts_search_case [Zed; Ann] (searchOnly "")
           "AN" "an" eq_refl).
Defined.

Lemma filterByCategories_same_set_witness :
  (∀ c, c ∈ ["X"; "Y"] ↔ c ∈ ["Y"; "X"; "X"]) ∧
  filterByCategories [Zed; Ann; Bob] ["X"; "Y"] None =
  filterByCategories [Zed; Ann; Bob] ["Y"; "X"; "X"] None.
Proof.
  split; [exact XY_same_set|].
  exact (FilterLaws.filterByCategories_same_set [Zed; Ann; Bob]
           ["X"; "Y"] ["Y"; "X"; "X"] None XY_same_set).
Defined.

Lemma sortProducts_of_ordered_witness :
  Sorted (mayPrecede defaultCompare "price-asc") [Zed; Bob; Ann] ∧
  sortProducts defaultCompare [Zed; Bob; Ann] "price-asc" = [Zed; Bob; Ann].
Proof.
  split; [exact by_price_ordered|].
  exact (SorterLaws.sortProducts_of_ordered defaultCompare [Zed; Bob; Ann]
           "price-asc" by_price_ordered).
Defined.

Lemma sortProducts_price_desc_reverse_witness :
  sortProducts defaultCompare [Ann; Zed] "price-desc" =
  reverse (sortProducts defaultCompare [Ann; Zed] "price-asc").
Proof.
  exact (SorterLaws.sortProducts_price_desc_reverse defaultCompare [Ann; Zed]
           Ann_Zed_prices).
Defined.

Lemma sortProducts_head_price_witness :
  head (sortProducts defaultCompare [Ann; Zed; Bob] "price-asc") = Some Zed ∧
  (price Zed == min (getPriceRange [Ann; Zed; Bob]))%Q.
Proof.
  split; [reflexivity|].
  exact (proj1 (SorterLaws.sortProducts_head_price defaultCompare
                  [Ann; Zed; Bob] Zed) eq_refl).
Defined.

Lemma sortProducts_name_ordered_witness :
  StronglySorted (λ a b, (defaultCompare (name a) (name b) <= 0)%Q)
    (sortProducts defaultCompare [Zed; Ann; Bob] "name-asc") ∧
  StronglySorted (λ a b, (defaultCompare (name b) (name a) <= 0)%Q)
    (sortProducts defaultCompare [Zed; Ann; Bob] "name-desc").
Proof.
  exact (SorterLaws.sortProducts_name_ordered defaultCompare
           defaultCompare_Consistent [Zed; Ann; Bob]).
Defined.

Lemma sortProducts_name_desc_reverse_witness :
  sortProducts defaultCompare [Ann; Zed] "name-desc" =
  reverse (sortProducts defaultCompare [Ann; Zed] "name-asc").
Proof.
  exact (SorterLaws.sortProducts_name_desc_reverse defaultCompare
           defaultCompare_Consistent [Ann; Zed] Ann_Zed_names).
Defined.

Lemma filterProducts_sortProducts_commute_witness :
  filterProducts (sortProducts defaultCompare [Zed; Ann; Bob] "name-asc")
    (searchOnly "b") =
  sortProducts defaultCompare (filterProducts [Zed; Ann; Bob] (searchOnly "b"))
    "name-asc".
Proof.
  exact (SorterLaws.filterProducts_sortProducts_commute defaultCompare
           defaultCompare_Consistent [Zed; Ann; Bob] (searchOnly "b") "name-asc").
Defined.

Lemma sortProducts_order_independent_witness :
  sortProducts defaultCompare [Ann; Zed] "price-asc" =
  sortProducts defaultCompare [Zed; Ann] "price-asc".
Proof.
  exact (SorterLaws.sortProducts_order_independent defaultCompare
           defaultCompare_Consistent [Ann; Zed] [Zed; Ann] "price-asc"
           SorterContract.price_asc_recognized Ann_Zed_price_keys
           (perm_swap Zed Ann [])).
Defined.

Lemma toggle_flips_witness :
  Ascending ["X"] ∧
  ("Y" ∈ toggle ["X"] "Y" ↔ "Y" ∉ ["X"]) ∧
  (∀ x, x ≠ "Y" → (x ∈ toggle ["X"] "Y" ↔ x ∈ ["X"])) ∧
  toggle (toggle ["X"] "Y") "Y" = ["X"].
Proof.
  split; [exact X_Ascending|].
  exact (CatalogLaws.toggle_flips ["X"] "Y" X_Ascending).
Defined.

Lemma X_plain (c : string) : c ∈ ["X"] → inherits c = false.
Proof. by intros ->%list_elem_of_singleton. Qed.

Lemma Zed_Ann_Bob_plain : PlainCategories [Zed; Ann; Bob].
Proof.
  intros p. rewrite !elem_of_cons, elem_of_nil.
  by intros [->|[->|[->|[]]]].
Qed.

Lemma shown_count_witness :
  sumOver (λ c, ToNumber (productCount (Some (countProductsByCategory [Zed; Ann; Bob])) c))
    ["X"] =
  Num (Z.of_nat (length (filteredAndSortedProducts defaultCompare [Zed; Ann; Bob]
                           ["X"] "name-asc"))).
Proof.
  apply (ViewLaws.shown_count defaultCompare [Zed; Ann; Bob] ["X"] "name-asc");
    [discriminate | exact X_NoDup | exact X_plain].
Defined.

Lemma totalProducts_length_witness :
  PlainCategories [Zed; Ann; Bob] ∧
  totalProducts (Some (countProductsByCategory [Zed; Ann; Bob])) = Num 3.
Proof.
  split; [exact Zed_Ann_Bob_plain|].
  exact (proj1 (ViewLaws.totalProducts_length [Zed; Ann; Bob] Zed_Ann_Bob_plain)).
Defined.

Lemma countProductsByCategory_lookup_witness :
  inherits "X" = false ∧
  countProductsByCategory [Zed; Ann; Bob] !! "X" = Some (Num 2).
Proof.
  split; [reflexivity|].
  exact (proj1 (FilterLaws.countProductsByCategory_lookup [Zed; Ann; Bob] "X")
           eq_refl).
Defined.

Lemma aggregates_order_independent_witness :
  getCategories [Ann; Zed] = getCategories [Zed; Ann] ∧
  ∀ c, countProductsByCategory [Ann; Zed] !! c =
       countProductsByCategory [Zed; Ann] !! c.
Proof.
  exact (AggregateLaws.aggregates_order_independent [Ann; Zed] [Zed; Ann]
           (perm_swap Zed Ann [])).
Defined.

Lemma StarRating_clamped_witness :
  (5 <= 6)%Q ∧ StarRating 6%Q = replicate 5 FullStar.
Proof.
  assert (5 <= 6)%Q as H by (vm_compute; discriminate).
  split; [exact H|].
  exact (proj1 (proj2 (StarLaws.StarRating_clamped 6%Q)) H).
Defined.

Lemma StarRating_accurate_witness :
  ((9 # 2) - (1 # 2) < starsValue (StarRating (9 # 2)))%Q ∧
  (starsValue (StarRating (9 # 2)) < (9 # 2) + (1 # 2))%Q ∧
  (((9 # 2) == inject_Z (Qfloor (9 # 2)))%Q →
   (starsValue (StarRating (9 # 2)) == (9 # 2))%Q).
Proof.
  apply (StarLaws.StarRating_accurate (9 # 2)); vm_compute; discriminate.
Defined.

(** The row for four and a half stars, and a selection in use. *)

Example stars_four_and_a_half :
  StarRating (9 # 2) =
  [FullStar; FullStar; FullStar; FullStar;
   {| fullOverlay := false; halfOverlay := true |}].
Proof. reflexivity. Qed.

Example select_twice_lists_twice :
  handleCategoryChange "X" true ["X"; "Y"] = ["X"; "X"; "Y"].
Proof. reflexivity. Qed.

Example run_of_clicks :
  run [Toggle "Y"; Toggle "X"; Toggle "Y"; Toggle "Z"] = ["X"; "Z"].
Proof. reflexivity. Qed.

Example reviews_missing_count_is_zero :
  sortProducts defaultCompare [Bob; Zed; Ann] "reviews" = [Ann; Zed; Bob] ∧
  sortProducts defaultCompare [Bob; Zed; Ann] "rating" = [Ann; Zed; Bob].
Proof. by split. Qed.

Example price_desc_with_ties :
  sortProducts defaultCompare [Zed; Bob] "price-desc" = [Zed; Bob] ∧
  reverse (sortProducts defaultCompare [Zed; Bob] "price-asc") = [Bob; Zed].
Proof. by split. Qed.

End Instances.
